(** * nequip/model/_scaling.py: statistic requests and output rescaling

    A shallow embedding of [compute_stats], [RescaleEnergyEtc] and
    [PerSpecieRescale].  Python values are a tagged union, Python floats
    are IEEE binary64 numbers ([PrimFloat]), exceptions are an explicit
    error type, and every call of [dataset.statistics] is recorded in a
    trace threaded through a small state-and-error monad. *)

From Stdlib Require Import ZArith List String Ascii Bool Floats.
From stdpp Require Import gmap strings.

Set Warnings "-inexact-float".
Open Scope string_scope.
Open Scope list_scope.

(** ** Python values *)

(** The dtypes of floating-point tensors. *)
Inductive DType : Type :=
| Float32
| Float64.

(** The part of Python's universe the module sees: configuration values,
    statistics returned by the dataset, and the locals built from them.
    A [torch.Tensor] is represented by its dtype and the flat list of
    its entries: a one-dimensional tensor on the CPU.  The entries of a
    float32 tensor are binary64 numbers that are float32 numbers. *)
Inductive Value : Type :=
| VNone
| VBool (b : bool)
| VInt (z : Z)
| VFloat (f : float)
| VStr (s : string)
| VList (l : list float)
| VTensor (dtype : DType) (t : list float).

(** [isinstance(v, str)], [isinstance(v, float)], [isinstance(v, list)],
    [isinstance(v, torch.Tensor)] and [v is None]. *)
Definition is_str (v : Value) : bool :=
  match v with VStr _ => true | _ => false end.
Definition is_float (v : Value) : bool :=
  match v with VFloat _ => true | _ => false end.
Definition is_list (v : Value) : bool :=
  match v with VList _ => true | _ => false end.
Definition is_tensor (v : Value) : bool :=
  match v with VTensor _ _ => true | _ => false end.
Definition is_None (v : Value) : bool :=
  match v with VNone => true | _ => false end.

(** ** Exceptions *)

(** One constructor per [raise] site of the module, under the name the
    specification gives it, followed by the built-in exceptions the
    modelled operations can raise.  All four sites raise [ValueError]
    in the source; the constructor keeps the interpolated value. *)
Inductive Error : Type :=
| UnsupportedStatisticKind (stat : string)       (* "Cannot handle {stat} type quantity" *)
| InvalidScaleSourceType (global_scale : Value)  (* "Invalid global scale `{global_scale}`" *)
| DegenerateScaleError (global_scale : float)    (* "Global energy scaling was very low: {global_scale}. ..." *)
| ConflictingShiftConfigError                    (* "One can only enable either global shift or per_species shift" *)
| KeyError (key : string)
| IndexError
| ValueError_not_in_list (x : string)
| TypeError
| ZeroDivisionError
| OverflowError
| RuntimeError
| AttributeError (name : string)
| DatasetError.                                  (* whatever [dataset.statistics] raises *)

(** ** Strings *)

(** [name[n:]] *)
Fixpoint drop_chars (n : nat) (s : string) : string :=
  match n, s with
  | O, _ => s
  | S n', String _ s' => drop_chars n' s'
  | S _, EmptyString => EmptyString
  end.

(** [s.startswith(p)] *)
Definition startswith (s p : string) : bool := String.prefix p s.

(** [s.split(sep)] for a one-character separator: never empty, an empty
    token for each leading, trailing or doubled separator. *)
Fixpoint split (sep : ascii) (s : string) : list string :=
  match s with
  | EmptyString => [EmptyString]
  | String c s' =>
      if Ascii.eqb c sep then EmptyString :: split sep s'
      else match split sep s' with
           | [] => [String c EmptyString]
           | tok :: toks => String c tok :: toks
           end
  end.

(** [sep.join(toks)] *)
Definition join (sep : string) (toks : list string) : string :=
  String.concat sep toks.

(** [x in l] for a list of strings *)
Definition str_in (x : string) (l : list string) : bool :=
  existsb (String.eqb x) l.

(** [l.index(x)]: the first position of [x]; [ValueError] when absent. *)
Fixpoint index (x : string) (l : list string) : option nat :=
  match l with
  | [] => None
  | y :: l' => if String.eqb y x then Some 0 else S <$> index x l'
  end.

(** ** The dataset and the trace of its calls *)

(** The arguments of one [dataset.statistics(fields=, modes=, stride=)]. *)
Record StatCall : Type := mkStatCall {
  call_fields : list string;
  call_modes : list string;
  call_stride : Value
}.

(** The dataset is an external collaborator: its [statistics] either
    raises ([None]) or returns a sequence of tuples. *)
Record AtomicDataset : Type := mkDataset {
  statistics : list string -> list string -> Value -> option (list (list Value))
}.

(** Computations that may raise and that log dataset calls.  The trace
    survives an exception, so that "raised before any dataset access"
    can be read off the result. *)
Definition M (A : Type) : Type := list StatCall -> (Error + A) * list StatCall.

Definition ret {A} (a : A) : M A := fun tr => (inr a, tr).
Definition raise {A} (e : Error) : M A := fun tr => (inl e, tr).
Definition bind {A B} (m : M A) (k : A -> M B) : M B :=
  fun tr => match m tr with
            | (inl e, tr') => (inl e, tr')
            | (inr a, tr') => k a tr'
            end.
Definition lift {A} (r : Error + A) : M A := fun tr => (r, tr).

Notation "'let*' x ':=' m 'in' k" := (bind m (fun x => k))
  (at level 10, x name, m at level 100, k at level 200).
Notation "'let*' ' pat ':=' m 'in' k" :=
  (bind m (fun x => match x with pat => k end))
  (at level 10, pat pattern, m at level 100, k at level 200).

(** [dataset.statistics(...)]: log the call, then return or raise. *)
Definition call_statistics (dataset : AtomicDataset)
    (fields modes : list string) (stride : Value) : M (list (list Value)) :=
  fun tr => (match statistics dataset fields modes stride with
             | Some values => inr values
             | None => inl DatasetError
             end,
             tr ++ [mkStatCall fields modes stride]).

(** Run a computation from the empty trace. *)
Definition run {A} (m : M A) : (Error + A) * list StatCall := m [].

(** ** compute_stats *)

(** The locals of the loop of [compute_stats] ([mode_count] is never
    read or written after its initialisation and is left out). *)
Record LoopState : Type := mkLoop {
  stat_modes : list string;
  stat_fields : list string;
  stat_strs : list string;
  ids : list nat;
  tuple_ids : list nat
}.

Definition loop_init : LoopState := mkLoop [] [] [] [] [].

(** [tuple_id_map = {"mean": 0, "std": 1, "rms": 0}] *)
Definition tuple_id_map (stat : string) : option nat :=
  if String.eqb stat "mean" then Some 0
  else if String.eqb stat "std" then Some 1
  else if String.eqb stat "rms" then Some 0
  else None.

(** Lines 24-25: remove the [dataset_] prefix. *)
Definition strip_dataset (name : string) : string :=
  if startswith name "dataset_" then drop_chars (String.length "dataset_") name
  else name.

(** Lines 27-33: the granularity prefix and the rest of the name. *)
Definition strip_granularity (name : string) : string * string :=
  if startswith name "per_species_"
  then (drop_chars (String.length "per_species_") name, "per_species_")
  else if startswith name "per_atom_"
  then (drop_chars (String.length "per_atom_") name, "per_atom_")
  else (name, "").

(** What lines 24-44 extract from one request. *)
Record Parsed : Type := mkParsed {
  p_field : string;
  p_prefix : string;
  p_stat : string;
  p_stat_mode : string;
  p_stat_str : string
}.

Definition parse_name (name : string) : Error + Parsed :=
  let name := strip_dataset name in
  let '(name, prefix) := strip_granularity name in
  match last (split "_" name) with
  | None => inl IndexError
  | Some stat =>
      let field := join "_" (removelast (split "_" name)) in
      if str_in stat ["mean"; "std"] then
        inr (mkParsed field prefix stat
                      (prefix +:+ "mean_std") (field +:+ prefix +:+ "mean_std"))
      else if str_in stat ["rms"] then
        inr (mkParsed field prefix stat
                      (prefix +:+ "rms") (field +:+ prefix +:+ "rms"))
      else inl (UnsupportedStatisticKind stat)
  end.

(** One iteration of the loop (lines 23-53). *)
Definition loop_body (st : LoopState) (name : string) : Error + LoopState :=
  match parse_name name with
  | inl e => inl e
  | inr p =>
      let st' :=
        if str_in (p_stat_str p) (stat_strs st) then
          match index (p_stat_str p) (stat_strs st) with
          | Some i => inr (mkLoop (stat_modes st) (stat_fields st) (stat_strs st)
                                   (ids st ++ [i]) (tuple_ids st))
          | None => inl (ValueError_not_in_list (p_stat_str p))
          end
        else
          inr (mkLoop (stat_modes st ++ [p_stat_mode p])
                      (stat_fields st ++ [p_field p])
                      (stat_strs st ++ [p_stat_str p])
                      (ids st ++ [List.length (stat_strs st)])
                      (tuple_ids st))
      in
      match st' with
      | inl e => inl e
      | inr st' =>
          match tuple_id_map (p_stat p) with
          | Some t => inr (mkLoop (stat_modes st') (stat_fields st') (stat_strs st')
                                   (ids st') (tuple_ids st' ++ [t]))
          | None => inl (KeyError (p_stat p))
          end
      end
  end.

(** [for name in str_names: ...] *)
Fixpoint loop (st : LoopState) (str_names : list string) : Error + LoopState :=
  match str_names with
  | [] => inr st
  | name :: rest =>
      match loop_body st name with
      | inl e => inl e
      | inr st' => loop st' rest
      end
  end.

(** [values[idx][tuple_ids[i]]]; the indices are never negative. *)
Definition pick (values : list (list Value)) (tuple_ids : list nat)
    (i idx : nat) : Error + Value :=
  match values !! idx with
  | None => inl IndexError
  | Some tup =>
      match tuple_ids !! i with
      | None => inl IndexError
      | Some t =>
          match tup !! t with
          | None => inl IndexError
          | Some v => inr v
          end
      end
  end.

(** [[values[idx][tuple_ids[i]] for i, idx in enumerate(ids)]], with [i]
    counted from [i0]. *)
Fixpoint collect (values : list (list Value)) (tuple_ids : list nat)
    (i0 : nat) (ids : list nat) : Error + list Value :=
  match ids with
  | [] => inr []
  | idx :: rest =>
      match pick values tuple_ids i0 idx with
      | inl e => inl e
      | inr v =>
          match collect values tuple_ids (S i0) rest with
          | inl e => inl e
          | inr vs => inr (v :: vs)
          end
      end
  end.

Definition compute_stats (str_names : list string) (dataset : AtomicDataset)
    (stride : Value) : M (list Value) :=
  let* st := lift (loop loop_init str_names) in
  let* values := call_statistics dataset (stat_fields st) (stat_modes st) stride in
  lift (collect values (tuple_ids st) 0 (ids st)).

(** ** Configuration, model and the collaborators that are built *)

(** [config.get(key, default)] on the configuration, a mapping from
    option names to values. *)
Definition config_get (config : gmap string Value) (key : string)
    (dflt : Value) : Value :=
  default dflt (config !! key).

(** [config.dataset_statistics_stride]: attribute access on the
    configuration object is a lookup of the option, which raises
    [KeyError] when the option is not set. *)
Definition config_attr (config : gmap string Value) (name : string) : Error + Value :=
  match config !! name with
  | Some v => inr v
  | None => inl (KeyError name)
  end.

(** The arguments of one [insert_from_parameters] call. *)
Record Insertion : Type := mkInsertion {
  ins_after : string;
  ins_shared_params : gmap string Value;
  ins_name : string;
  ins_builder : string;
  ins_params : list (string * string);
  ins_prepend : bool
}.

(** What the module reads and changes of a [GraphModuleMixin]: the keys
    of [irreps_out], the insertions it has received, and the insertions
    received by [model.func] ([None] when the model has no [func]). *)
Record GraphModel : Type := mkModel {
  irreps_out : gset string;
  inserted : list Insertion;
  func_inserted : option (list Insertion)
}.

(** The keyword arguments [RescaleOutput] is constructed with. *)
Record RescaleOutput : Type := mkRescaleOutput {
  ro_model : GraphModel;
  scale_keys : list string;
  scale_by : Value;
  shift_keys : list string;
  shift_by : Value;
  trainable_global_rescale_shift : Value;
  trainable_global_rescale_scale : Value
}.

(** Lines 84-96 and 182-195: collect the request strings of [values] and
    reject a value of another type.  [valid] is the chain of
    [isinstance] tests of the [elif]; the test [global_scale is None] is
    on the variable [global_scale], whatever [value] is. *)
Fixpoint collect_str_names (valid : Value -> bool) (global_scale : Value)
    (values : list Value) (str_names : list string) : Error + list string :=
  match values with
  | [] => inr str_names
  | value :: rest =>
      match value with
      | VStr s => collect_str_names valid global_scale rest (str_names ++ [s])
      | _ =>
          if is_None global_scale || valid value
          then collect_str_names valid global_scale rest str_names
          else inl (InvalidScaleSourceType global_scale)
      end
  end.

(** [if isinstance(v, str): v = computed_stats[str_names.index(v)]] *)
Definition substitute (v : Value) (str_names : list string)
    (computed_stats : list Value) : Error + Value :=
  match v with
  | VStr s =>
      match index s str_names with
      | None => inl (ValueError_not_in_list s)
      | Some i =>
          match computed_stats !! i with
          | None => inl IndexError
          | Some x => inr x
          end
      end
  | _ => inr v
  end.

Definition RESCALE_THRESHOLD : float := 1e-6.

(** Lines 111-114. *)
Definition check_threshold (global_scale : Value) : Error + unit :=
  match global_scale with
  | VFloat f =>
      if (f <? RESCALE_THRESHOLD)%float then inl (DegenerateScaleError f)
      else inr tt
  | _ => inr tt
  end.

(** Python numbers: [int] (and [bool], its subclass) and [float]. *)
Inductive Number : Type :=
| NInt (z : Z)
| NFloat (f : float).

Definition as_number (v : Value) : option Number :=
  match v with
  | VBool b => Some (NInt (if b then 1 else 0))
  | VInt z => Some (NInt z)
  | VFloat f => Some (NFloat f)
  | _ => None
  end.

(** [float(z)]: the nearest binary64 number, [OverflowError] beyond the
    range of the finite ones. *)
Definition float_of_int (z : Z) : Error + float :=
  let f := SF2Prim (binary_normalize prec emax z 0 false) in
  if is_infinity f then inl OverflowError else inr f.

Definition to_float (n : Number) : Error + float :=
  match n with
  | NInt z => float_of_int z
  | NFloat f => inr f
  end.

(** [a / b] on two [int]s: the exact quotient, rounded once. *)
Definition spec_of_int (z : Z) : spec_float :=
  match z with
  | Z0 => S754_zero false
  | Zpos m => S754_finite false m 0
  | Zneg m => S754_finite true m 0
  end.

Definition int_truediv (a b : Z) : Error + float :=
  if (b =? 0)%Z then inl ZeroDivisionError
  else
    let f := SF2Prim (SFdiv prec emax (spec_of_int a) (spec_of_int b)) in
    if is_infinity f then inl OverflowError else inr f.

Definition number_div (x y : Number) : Error + float :=
  match x, y with
  | NInt a, NInt b => int_truediv a b
  | _, _ =>
      match to_float x, to_float y with
      | inl e, _ | _, inl e => inl e
      | inr x', inr y' =>
          if (y' =? 0)%float then inl ZeroDivisionError else inr (x' / y')%float
      end
  end.

(** The nearest float32 number (ties to even), as a binary64 number. *)
Definition round32 (x : float) : float :=
  match Prim2SF x with
  | S754_finite s m e => SF2Prim (binary_round 24 128 s m e)
  | _ => x
  end.

(** A binary64 number stored in a tensor of the given dtype. *)
Definition cast (dtype : DType) (x : float) : float :=
  match dtype with
  | Float32 => round32 x
  | Float64 => x
  end.

(** [a /= b].  Numbers divide as above.  A tensor on the left is
    divided in place, entry by entry, and keeps its dtype and shape
    ([torch]: a number is cast to the dtype of the tensor, a one-entry
    right operand is broadcast, the quotient is stored in the dtype of
    the left operand).  A number divided by a tensor gives a new tensor
    ([Tensor.__rtruediv__]: the reciprocal of the tensor times the
    number).  Every other pair of operand types has no division. *)
Definition itruediv (a b : Value) : Error + Value :=
  match a, b with
  | VTensor dt t, VTensor _ u =>
      if Nat.eqb (List.length u) (List.length t)
      then inr (VTensor dt (zip_with (fun x y => cast dt (x / y))%float t u))
      else match u with
           | [y] => inr (VTensor dt (map (fun x => cast dt (x / y))%float t))
           | _ => inl RuntimeError
           end
  | VTensor dt t, _ =>
      match as_number b with
      | Some n =>
          match to_float n with
          | inl e => inl e
          | inr y =>
              inr (VTensor dt (map (fun x => cast dt (x / cast dt y))%float t))
          end
      | None => inl TypeError
      end
  | _, VTensor dt u =>
      match as_number a with
      | Some n =>
          match to_float n with
          | inl e => inl e
          | inr x =>
              inr (VTensor dt
                     (map (fun y => cast dt (cast dt (1 / y) * cast dt x))%float u))
          end
      | None => inl TypeError
      end
  | _, _ =>
      match as_number a, as_number b with
      | Some x, Some y =>
          match number_div x y with
          | inl e => inl e
          | inr q => inr (VFloat q)
          end
      | _, _ => inl TypeError
      end
  end.

(** Which object a source is bound to after substitution.  A request
    string is bound to the object the dataset returned at the place
    (slot, tuple index) of the request; the dataset is taken to return
    different objects at different places, and the configured values
    of different options to be different objects. *)
Definition place_of (str_names : list string) (st : LoopState) (source : Value)
    : option (nat * nat) :=
  match source with
  | VStr s =>
      match index s str_names with
      | Some i =>
          match ids st !! i, tuple_ids st !! i with
          | Some k, Some t => Some (k, t)
          | _, _ => None
          end
      | None => None
      end
  | _ => None
  end.

(** Two sources bound to one object. *)
Definition same_object (str_names : list string) (a b : Value) : bool :=
  match loop loop_init str_names with
  | inr st =>
      match place_of str_names st a, place_of str_names st b with
      | Some p, Some q => bool_decide (p = q)
      | _, _ => false
      end
  | inl _ => false
  end.

(** The three locals after [scales /= global_scale] has given [q].  On
    a tensor the division is in place, so that a local bound to the
    object of [scales] holds [q] as well; on anything else [scales] is
    bound to a new object. *)
Definition after_division (str_names : list string)
    (scales shifts global_scale : Value)
    (scales0 shifts0 global_scale0 q : Value) : Value * Value * Value :=
  if is_tensor scales0 then
    (q,
     if same_object str_names scales shifts then q else shifts0,
     if same_object str_names scales global_scale then q else global_scale0)
  else (q, shifts0, global_scale0).

Section Scaling.

(** The keys of [AtomicDataDict], defined outside this module. *)
Variables FORCE_KEY TOTAL_ENERGY_KEY PER_ATOM_ENERGY_KEY : string.

(** [k in model.irreps_out] *)
Definition produces (model : GraphModel) (k : string) : bool :=
  bool_decide (k ∈ irreps_out model).

(** ** RescaleEnergyEtc *)

Definition default_global_scale (model : GraphModel) : Value :=
  if produces model FORCE_KEY then VStr "dataset_force_rms"
  else VStr "dataset_energy_std".

(** Lines 73-80: the configured sources of the scale and of the shift. *)
Definition global_scale_source (model : GraphModel)
    (config : gmap string Value) : Value :=
  config_get config "global_rescale_scale" (default_global_scale model).

Definition global_shift_source (config : gmap string Value) : Value :=
  config_get config "global_rescale_shift" (VStr "dataset_energy_mean").

(** Lines 84-108: validate the two sources, resolve the request strings
    and substitute the statistics back. *)
Definition resolve_global (config : gmap string Value) (dataset : AtomicDataset)
    (global_scale global_shift : Value) : M (Value * Value) :=
  let* str_names :=
    lift (collect_str_names (fun v => is_float v || is_tensor v) global_scale
                            [global_scale; global_shift] []) in
  let* stride := lift (config_attr config "dataset_statistics_stride") in
  let* computed_stats := compute_stats str_names dataset stride in
  let* global_scale := lift (substitute global_scale str_names computed_stats) in
  let* global_shift := lift (substitute global_shift str_names computed_stats) in
  ret (global_scale, global_shift).

(** Lines 83-124: the values of [global_scale] and [global_shift] when
    the model is built ([logging.debug] has no effect on them). *)
Definition global_values (config : gmap string Value) (dataset : AtomicDataset)
    (initialize : bool) (global_scale global_shift : Value) : M (Value * Value) :=
  if initialize then
    let* '(global_scale, global_shift) :=
      resolve_global config dataset global_scale global_shift in
    let* _ := lift (check_threshold global_scale) in
    ret (global_scale, global_shift)
  else
    let global_shift := if is_None global_shift then global_shift else VFloat 0 in
    let global_scale := if is_None global_scale then global_scale else VFloat 1 in
    ret (global_scale, global_shift).

Definition RescaleEnergyEtc (model : GraphModel) (config : gmap string Value)
    (dataset : AtomicDataset) (initialize : bool) : M RescaleOutput :=
  let global_scale := global_scale_source model config in
  let global_shift := global_shift_source config in
  let* '(global_scale, global_shift) :=
    global_values config dataset initialize global_scale global_shift in
  ret (mkRescaleOutput
         model
         (List.filter (produces model)
                      [TOTAL_ENERGY_KEY; PER_ATOM_ENERGY_KEY; FORCE_KEY])
         global_scale
         (List.filter (produces model) [TOTAL_ENERGY_KEY])
         global_shift
         (config_get config "trainable_global_rescale_shift" (VBool false))
         (config_get config "trainable_global_rescale_scale" (VBool false))).

(** ** PerSpecieRescale *)

Definition module_prefix : string := "PerSpeciesScaleShift_".

(** Lines 181-219: the values of [scales], [shifts] and [global_scale]
    after the branch on [initialize]. *)
Definition per_species_values (config : gmap string Value)
    (dataset : AtomicDataset) (initialize : bool)
    (scales shifts global_scale : Value) : M (Value * Value * Value) :=
  if initialize then
    let* str_names :=
      lift (collect_str_names
              (fun v => is_float v || is_list v || is_tensor v) global_scale
              [scales; shifts; global_scale] []) in
    let* stride := lift (config_attr config "dataset_statistics_stride") in
    let* computed_stats := compute_stats str_names dataset stride in
    let* scales0 := lift (substitute scales str_names computed_stats) in
    let* shifts0 := lift (substitute shifts str_names computed_stats) in
    let* global_scale0 :=
      lift (substitute global_scale str_names computed_stats) in
    if is_None global_scale0 then ret (scales0, shifts0, global_scale0)
    else
      let* q := lift (itruediv scales0 global_scale0) in
      ret (after_division str_names scales shifts global_scale
                          scales0 shifts0 global_scale0 q)
  else
    let scales := if is_None scales then scales else VFloat 1 in
    let shifts := if is_None shifts then shifts else VFloat 1 in
    ret (scales, shifts, global_scale).

(** [scales /= global_scale] on a tensor divides in place: a tensor
    that is the configured value of [PerSpeciesScaleShift_scales] is
    changed inside [config], which is then passed as [shared_params].
    Different options are taken to hold different tensor objects. *)
Definition config_after (config : gmap string Value) (initialize : bool)
    (configured_scales scales global_scale : Value) : gmap string Value :=
  if initialize && is_tensor configured_scales && negb (is_None global_scale)
  then <[module_prefix +:+ "scales" := scales]> config
  else config.

Definition per_species_insertion (config : gmap string Value) : Insertion :=
  mkInsertion "total_energy_sum" config "per_species_scale_shift"
              "PerSpeciesScaleShift"
              [("field", PER_ATOM_ENERGY_KEY); ("out_field", PER_ATOM_ENERGY_KEY)]
              true.

(** Lines 167-173: the configured sources of the per-species variant. *)
Definition ps_global_scale_source (model : GraphModel)
    (config : gmap string Value) : Value :=
  config_get config "global_rescale_scale"
    (if produces model FORCE_KEY then VStr "dataset_force_rms"
     else VStr "dataset_energy_std").

Definition ps_global_shift_source (config : gmap string Value) : Value :=
  config_get config "global_rescale_shift" VNone.

Definition scales_source (config : gmap string Value) : Value :=
  config_get config (module_prefix +:+ "scales") VNone.

Definition shifts_source (config : gmap string Value) : Value :=
  config_get config (module_prefix +:+ "shifts") VNone.

Definition PerSpecieRescale (model : GraphModel) (config : gmap string Value)
    (dataset : AtomicDataset) (initialize : bool) : M GraphModel :=
  let force_training := produces model FORCE_KEY in
  let global_scale := ps_global_scale_source model config in
  let global_shift := ps_global_shift_source config in
  let scales := scales_source config in
  let shifts := shifts_source config in
  if negb (is_None global_shift) then raise ConflictingShiftConfigError
  else
    let* '(scales', shifts', global_scale') :=
      per_species_values config dataset initialize scales shifts global_scale in
    let ins :=
      per_species_insertion
        (config_after config initialize scales scales' global_scale') in
    if force_training then
      match func_inserted model with
      | None => raise (AttributeError "func")
      | Some l =>
          ret (mkModel (irreps_out model) (inserted model) (Some (l ++ [ins])))
      end
    else
      ret (mkModel (irreps_out model) (inserted model ++ [ins])
                   (func_inserted model)).

End Scaling.

(** ** Vocabulary of the properties *)

(** The token after the last underscore of a request. *)
Definition trailing_token (name : string) : option string :=
  last (split "_" name).

(** [stat in ["mean", "std"]] or [stat in ["rms"]]. *)
Definition supported_kind (tok : option string) : bool :=
  match tok with
  | Some stat => str_in stat ["mean"; "std"] || str_in stat ["rms"]
  | None => false
  end.

(** The slot a key is given among the keys seen so far: its first
    position, or a new slot at the end. *)
Definition slot_of (strs : list string) (key : string) : nat :=
  match index key strs with
  | Some k => k
  | None => List.length strs
  end.

(** A source of one of the types the global variant names as valid. *)
Definition global_valid (v : Value) : bool :=
  is_str v || is_float v || is_tensor v.

(** What the loop of lines 85-96 lets through. *)
Definition global_accepts (global_scale global_shift : Value) : bool :=
  is_None global_scale || (global_valid global_scale && global_valid global_shift).

(** The request strings among the two sources, in order. *)
Definition global_requests (global_scale global_shift : Value) : list string :=
  match global_scale, global_shift with
  | VStr a, VStr b => [a; b]
  | VStr a, _ => [a]
  | _, VStr b => [b]
  | _, _ => []
  end.

(** The placeholder of the path without statistics. *)
Definition neutral (source : Value) (x : float) : Value :=
  if is_None source then VNone else VFloat x.

(** The exceptions of a failed division. *)
Definition arithmetic_error (e : Error) : bool :=
  match e with
  | TypeError | ZeroDivisionError | OverflowError | RuntimeError => true
  | _ => false
  end.

(** ** Inputs of the worked examples *)

(** A dataset that returns the same statistics for every field: a
    one-entry tuple for an rms slot, a pair for a mean_std slot. *)
Definition const_stats (rms mean std : float) : AtomicDataset :=
  mkDataset (fun _ modes _ =>
    Some (map (fun mode =>
                 if str_in mode ["rms"; "per_species_rms"; "per_atom_rms"]
                 then [VFloat rms] else [VFloat mean; VFloat std])
              modes)).

(** Mean 3 and standard deviation 0.5 everywhere, rms 2. *)
Definition two_stats : AtomicDataset := const_stats 2 3 0.5.

(** Forces that are all close to zero. *)
Definition tiny_forces : AtomicDataset := const_stats 1e-8 3 0.5.

(** Statistics returned as one-entry float32 tensors, with forces all
    close to zero. *)
Definition tiny_forces_tensor : AtomicDataset :=
  mkDataset (fun _ modes _ =>
    Some (map (fun mode =>
                 if str_in mode ["rms"; "per_species_rms"; "per_atom_rms"]
                 then [VTensor Float32 [0x1p-30]%float]
                 else [VTensor Float32 [3]%float; VTensor Float32 [0.5]%float])
              modes)).

(** Statistics returned as Python ints, all zero. *)
Definition zero_int_stats : AtomicDataset :=
  mkDataset (fun _ modes _ =>
    Some (map (fun mode =>
                 if str_in mode ["rms"; "per_species_rms"; "per_atom_rms"]
                 then [VInt 0] else [VInt 0; VInt 0])
              modes)).

(** A model that produces energies and forces, wrapping a [func]. *)
Definition force_model : GraphModel :=
  mkModel {[ "total_energy"; "atomic_energy"; "forces" ]} [] (Some []).

(** Only the stride is configured. *)
Definition default_config : gmap string Value :=
  {[ "dataset_statistics_stride" := VInt 1 ]}.

(** Literal numbers for both global sources. *)
Definition literal_config : gmap string Value :=
  <[ "global_rescale_scale" := VFloat 2 ]>
    (<[ "global_rescale_shift" := VFloat 0.5 ]> default_config).

(** The shift is disabled, the scale is left to its default. *)
Definition none_shift_config : gmap string Value :=
  <[ "global_rescale_shift" := VNone ]> default_config.

(** A global shift and no per-species shift. *)
Definition shift_only_config : gmap string Value :=
  <[ "global_rescale_shift" := VFloat 1 ]> default_config.

(** Per-species scales given as a tensor, and a literal global scale. *)
Definition tensor_scales_config : gmap string Value :=
  <[ "PerSpeciesScaleShift_scales" := VTensor Float32 [2; 4]%float ]>
    (<[ "PerSpeciesScaleShift_shifts" := VTensor Float32 [0; 0]%float ]>
       (<[ "global_rescale_scale" := VFloat 2 ]> default_config)).

(** ** Vocabulary of the further properties *)

(** The aggregation modes the parser can produce. *)
Definition known_modes : list string :=
  ["mean_std"; "rms"; "per_species_mean_std"; "per_species_rms";
   "per_atom_mean_std"; "per_atom_rms"].

(** The tuple entries a slot of a given mode is read at: entries 0 and
    1 for a mean_std mode, entry 0 for an rms mode. *)
Definition mode_arity (mode : string) : nat :=
  if str_in mode ["mean_std"; "per_species_mean_std"; "per_atom_mean_std"]
  then 2 else 1.

(** A result of [dataset.statistics] with one tuple per mode, each long
    enough for its mode. *)
Definition well_shaped (modes : list string) (values : list (list Value)) : Prop :=
  Forall2 (fun mode tup => mode_arity mode <= List.length tup) modes values.

(** The last character of a string. *)
Fixpoint last_char (s : string) : option ascii :=
  match s with
  | EmptyString => None
  | String c EmptyString => Some c
  | String _ s' => last_char s'
  end.

(** The slots of a loop state: as many fields and modes as keys, no key
    twice, each key the concatenation of its slot's field and mode, and
    each mode a known one. *)
Definition slots_ok (st : LoopState) : Prop :=
  List.length (stat_modes st) = List.length (stat_strs st)
  /\ List.length (stat_fields st) = List.length (stat_strs st)
  /\ NoDup (stat_strs st)
  /\ forall k key, stat_strs st !! k = Some key ->
       exists f m, stat_fields st !! k = Some f
                   /\ stat_modes st !! k = Some m
                   /\ key = f +:+ m
                   /\ m ∈ known_modes.

(** A computation that only extends the trace, by at most [n] calls. *)
Definition calls_at_most {A} (n : nat) (m : M A) : Prop :=
  forall tr, exists ext, snd (m tr) = tr ++ ext /\ List.length ext <= n.

(** A source of one of the types the per-species variant names as
    valid. *)
Definition per_species_valid (v : Value) : bool :=
  is_str v || is_float v || is_list v || is_tensor v.

(** What the loop of lines 183-195 lets through. *)
Definition per_species_accepts (scales shifts global_scale : Value) : bool :=
  is_None global_scale
  || (per_species_valid scales && per_species_valid shifts
      && per_species_valid global_scale).

(** The request strings among some sources, in order. *)
Fixpoint request_strings (values : list Value) : list string :=
  match values with
  | [] => []
  | VStr s :: rest => s :: request_strings rest
  | _ :: rest => request_strings rest
  end.

(** The exceptions of resolving the sources, apart from the validation
    error: a missing stride, those of [compute_stats], and those of
    reading the results back. *)
Definition resolution_error (e : Error) : bool :=
  match e with
  | KeyError _ | UnsupportedStatisticKind _ | DatasetError
  | IndexError | ValueError_not_in_list _ => true
  | _ => false
  end.

(** A dataset that returns one entry per slot whatever the mode. *)
Definition short_stats : AtomicDataset :=
  mkDataset (fun _ modes _ => Some (map (fun _ => [VFloat 3]) modes)).

(** A literal scale given as a Python int. *)
Definition int_scale_config : gmap string Value :=
  <[ "global_rescale_scale" := VInt 1 ]> default_config.

(** A literal scale that is not a number. *)
Definition nan_scale_config : gmap string Value :=
  <[ "global_rescale_scale" := VFloat nan ]> default_config.

(** Per-species scales as a tensor, and no per-species shifts. *)
Definition scales_only_config : gmap string Value :=
  <[ "PerSpeciesScaleShift_scales" := VTensor Float32 [2; 4]%float ]> default_config.

(** Per-species scales given as a Python list. *)
Definition list_scales_config : gmap string Value :=
  <[ "PerSpeciesScaleShift_scales" := VList [2; 4]%float ]>
    (<[ "PerSpeciesScaleShift_shifts" := VList [0; 0]%float ]>
       (<[ "global_rescale_scale" := VFloat 2 ]> default_config)).

(** A model that produces energies only. *)
Definition energy_model : GraphModel :=
  mkModel {[ "total_energy"; "atomic_energy" ]} [] None.

(** * Properties *)

Example split_energy_mean : split "_" "energy_mean" = ["energy"; "mean"].
Proof. reflexivity. Qed.

Example split_trailing : split "_" "a__b_" = ["a"; ""; "b"; ""].
Proof. reflexivity. Qed.

Example parse_dataset_per_species_force_rms :
  parse_name "dataset_per_species_force_rms"
  = inr (mkParsed "force" "per_species_" "rms" "per_species_rms" "forceper_species_rms").
Proof. reflexivity. Qed.


(** Only the last token is the kind: underscores stay in the field. *)
Example parse_total_energy_std :
  parse_name "total_energy_std"
  = inr (mkParsed "total_energy" "" "std" "mean_std" "total_energymean_std").
Proof. reflexivity. Qed.

(** ** Strings *)

Lemma split_nonempty (sep : ascii) (s : string) : split sep s <> [].
Proof.
  destruct s as [|c s]; simpl; [discriminate|].
  destruct (Ascii.eqb c sep); [discriminate|].
  destruct (split sep s); discriminate.
Qed.

Lemma last_split_is_Some (sep : ascii) (s : string) :
  exists tok, last (split sep s) = Some tok.
Proof.
  destruct (last (split sep s)) as [tok|] eqn:E; [eauto|].
  apply last_None in E. now apply split_nonempty in E.
Qed.

(** Splitting at a separator splits the token list. *)
Lemma split_app_sep (sep : ascii) (a b : string) :
  split sep (a +:+ String sep b) = split sep a ++ split sep b.
Proof.
  induction a as [|c a IH]; simpl.
  - now rewrite Ascii.eqb_refl.
  - destruct (Ascii.eqb c sep).
    + now rewrite IH.
    + rewrite IH. destruct (split sep a) eqn:E; [|reflexivity].
      now apply split_nonempty in E.
Qed.

Lemma last_split_app_sep (sep : ascii) (a b : string) :
  last (split sep (a +:+ String sep b)) = last (split sep b).
Proof.
  rewrite split_app_sep, last_app.
  destruct (last_split_is_Some sep b) as [tok ->]. reflexivity.
Qed.

Lemma startswith_drop (s p : string) :
  startswith s p = true -> s = p +:+ drop_chars (String.length p) s.
Proof.
  unfold startswith. revert s.
  induction p as [|c p IH]; intros s H; simpl in *.
  - reflexivity.
  - destruct s as [|d s]; [discriminate|].
    change (String.prefix (String c p) (String d s))
      with (if ascii_dec c d then String.prefix p s else false) in H.
    destruct (ascii_dec c d) as [->|]; [|discriminate].
    change (String d s = String d (p +:+ drop_chars (String.length p) s)).
    f_equal. now apply IH.
Qed.

(** Removing a prefix that ends in an underscore keeps the trailing
    token. *)
Lemma trailing_token_strip_dataset (name : string) :
  trailing_token (strip_dataset name) = trailing_token name.
Proof.
  unfold strip_dataset, trailing_token.
  destruct (startswith name "dataset_") eqn:E; [|reflexivity].
  apply startswith_drop in E. rewrite E at 2.
  symmetry. apply (last_split_app_sep "_" "dataset").
Qed.

Lemma trailing_token_strip_granularity (name : string) :
  trailing_token (fst (strip_granularity name)) = trailing_token name.
Proof.
  unfold strip_granularity, trailing_token.
  destruct (startswith name "per_species_") eqn:E; simpl.
  { apply startswith_drop in E. rewrite E at 2.
    symmetry. apply (last_split_app_sep "_" "per_species"). }
  destruct (startswith name "per_atom_") eqn:E'; simpl; [|reflexivity].
  apply startswith_drop in E'. rewrite E' at 2.
  symmetry. apply (last_split_app_sep "_" "per_atom").
Qed.

(** ** Parsing one request *)

Lemma parse_name_trailing (name : string) :
  trailing_token (fst (strip_granularity (strip_dataset name)))
  = trailing_token name.
Proof.
  now rewrite trailing_token_strip_granularity, trailing_token_strip_dataset.
Qed.

(** A request parses exactly when its trailing token is a supported
    kind; the only exception of the parser is [UnsupportedStatisticKind]
    with that token. *)
Lemma parse_name_inl (name : string) (e : Error) :
  parse_name name = inl e ->
  exists stat, e = UnsupportedStatisticKind stat
               /\ trailing_token name = Some stat
               /\ supported_kind (Some stat) = false.
Proof.
  unfold parse_name. rewrite <- (parse_name_trailing name).
  destruct (strip_granularity (strip_dataset name)) as [name' prefix].
  unfold trailing_token. simpl fst.
  destruct (last_split_is_Some "_" name') as [stat ->].
  unfold supported_kind.
  destruct (str_in stat ["mean"; "std"]) eqn:E1; [discriminate|].
  destruct (str_in stat ["rms"]) eqn:E2; [discriminate|].
  intros [= <-]. exists stat. now rewrite E1, E2.
Qed.

Lemma parse_name_inr (name : string) (p : Parsed) :
  parse_name name = inr p ->
  trailing_token name = Some (p_stat p)
  /\ supported_kind (Some (p_stat p)) = true
  /\ p_stat_mode p = p_prefix p +:+ (if str_in (p_stat p) ["rms"] then "rms" else "mean_std")
  /\ p_stat_str p = p_field p +:+ p_stat_mode p.
Proof.
  unfold parse_name. rewrite <- (parse_name_trailing name).
  destruct (strip_granularity (strip_dataset name)) as [name' prefix].
  unfold trailing_token. simpl fst.
  destruct (last_split_is_Some "_" name') as [stat ->].
  unfold supported_kind.
  destruct (str_in stat ["mean"; "std"]) eqn:E1.
  - intros [= <-]. cbn [p_stat p_prefix p_field p_stat_mode p_stat_str].
    rewrite E1. repeat split.
    destruct (str_in stat ["rms"]) eqn:E2; [|reflexivity].
    exfalso. revert E1 E2. unfold str_in. simpl.
    destruct (String.eqb_spec stat "rms") as [->|]; discriminate.
  - destruct (str_in stat ["rms"]) eqn:E2; [|discriminate].
    intros [= <-]. cbn [p_stat p_prefix p_field p_stat_mode p_stat_str].
    rewrite E1, E2. repeat split.
Qed.

Lemma supported_kind_tuple_id (stat : string) :
  supported_kind (Some stat) = true -> exists t, tuple_id_map stat = Some t.
Proof.
  unfold supported_kind, str_in, tuple_id_map. simpl.
  destruct (String.eqb stat "mean"); [eauto|].
  destruct (String.eqb stat "std"); [eauto|].
  destruct (String.eqb stat "rms"); [eauto|discriminate].
Qed.

(** ** List search *)

Lemma index_lookup (x : string) (l : list string) (k : nat) :
  index x l = Some k -> l !! k = Some x.
Proof.
  revert k. induction l as [|y l IH]; intros k; simpl; [discriminate|].
  destruct (String.eqb_spec y x) as [->|].
  - now intros [= <-].
  - destruct (index x l) as [k'|]; [|discriminate].
    intros [= <-]. simpl. now apply IH.
Qed.

Lemma str_in_index (x : string) (l : list string) :
  str_in x l = true -> exists k, index x l = Some k.
Proof.
  unfold str_in. induction l as [|y l IH]; simpl; [discriminate|].
  rewrite (String.eqb_sym x y).
  destruct (String.eqb y x); [eauto|]. simpl.
  intros H. destruct (IH H) as [k ->]. simpl. eauto.
Qed.

Lemma str_in_false_index (x : string) (l : list string) :
  str_in x l = false -> index x l = None.
Proof.
  unfold str_in. induction l as [|y l IH]; simpl; [reflexivity|].
  rewrite (String.eqb_sym x y).
  destruct (String.eqb y x); [discriminate|]. simpl.
  intros H. now rewrite (IH H).
Qed.

(** ** The loop of compute_stats *)

Lemma loop_body_parsed (st : LoopState) (name : string) (p : Parsed) :
  parse_name name = inr p ->
  exists t,
    tuple_id_map (p_stat p) = Some t /\
    loop_body st name
    = inr (if str_in (p_stat_str p) (stat_strs st)
           then mkLoop (stat_modes st) (stat_fields st) (stat_strs st)
                       (ids st ++ [slot_of (stat_strs st) (p_stat_str p)])
                       (tuple_ids st ++ [t])
           else mkLoop (stat_modes st ++ [p_stat_mode p])
                       (stat_fields st ++ [p_field p])
                       (stat_strs st ++ [p_stat_str p])
                       (ids st ++ [slot_of (stat_strs st) (p_stat_str p)])
                       (tuple_ids st ++ [t])).
Proof.
  intros Hp. destruct (parse_name_inr _ _ Hp) as (_ & Hk & _).
  destruct (supported_kind_tuple_id _ Hk) as [t Ht].
  exists t. split; [exact Ht|].
  unfold loop_body, slot_of. rewrite Hp.
  destruct (str_in (p_stat_str p) (stat_strs st)) eqn:E.
  - destruct (str_in_index _ _ E) as [k ->]. simpl. now rewrite Ht.
  - rewrite (str_in_false_index _ _ E). simpl. now rewrite Ht.
Qed.

Lemma loop_body_inl (st : LoopState) (name : string) (e : Error) :
  loop_body st name = inl e -> parse_name name = inl e.
Proof.
  destruct (parse_name name) as [e'|p] eqn:Hp.
  - unfold loop_body. rewrite Hp. now intros [= ->].
  - destruct (loop_body_parsed st name p Hp) as (t & _ & ->). discriminate.
Qed.

Lemma index_app_l (x : string) (l ext : list string) (k : nat) :
  index x l = Some k -> index x (l ++ ext) = Some k.
Proof.
  revert k. induction l as [|y l IH]; intros k; simpl; [discriminate|].
  destruct (String.eqb y x); [easy|].
  destruct (index x l) as [k'|]; [|discriminate].
  intros [= <-]. now rewrite (IH k' eq_refl).
Qed.

Lemma index_app_new (x : string) (l : list string) :
  index x l = None -> index x (l ++ [x]) = Some (List.length l).
Proof.
  induction l as [|y l IH]; simpl.
  - now rewrite String.eqb_refl.
  - destruct (String.eqb y x); [discriminate|].
    destruct (index x l); [discriminate|].
    intros _. now rewrite IH.
Qed.

(** The slot recorded for a request is the first position of the
    request's key among the keys, once the key is there. *)
Lemma slot_of_index (strs : list string) (key : string) :
  index key (if str_in key strs then strs else strs ++ [key])
  = Some (slot_of strs key).
Proof.
  unfold slot_of. destruct (str_in key strs) eqn:E.
  - destruct (str_in_index _ _ E) as [k Hk]. now rewrite Hk.
  - pose proof (str_in_false_index _ _ E) as Hn. rewrite Hn.
    now apply index_app_new.
Qed.

(** Invariant of the loop, from any state: the keys seen so far are
    only extended, one slot index is appended per request, and the slot
    of each request is the first position of its key. *)
Lemma loop_invariant (str_names : list string) (st st' : LoopState) :
  loop st str_names = inr st' ->
  exists ext new,
    stat_strs st' = stat_strs st ++ ext
    /\ ids st' = ids st ++ new
    /\ List.length new = List.length str_names
    /\ forall i name, str_names !! i = Some name ->
         exists p k, parse_name name = inr p
                     /\ new !! i = Some k
                     /\ index (p_stat_str p) (stat_strs st') = Some k.
Proof.
  revert st. induction str_names as [|name rest IH]; intros st; simpl.
  - intros [= <-]. exists [], []. rewrite !app_nil_r. repeat split.
    intros i name Hi. now rewrite lookup_nil in Hi.
  - destruct (loop_body st name) as [e|st1] eqn:Hb; [discriminate|].
    intros Hl. destruct (IH st1 Hl) as (ext & new & Hs & Hi & Hlen & Hall).
    destruct (parse_name name) as [e|p] eqn:Hp.
    { unfold loop_body in Hb. rewrite Hp in Hb. discriminate. }
    destruct (loop_body_parsed st name p Hp) as (t & _ & Hb').
    rewrite Hb in Hb'. injection Hb' as Hst1.
    pose proof (slot_of_index (stat_strs st) (p_stat_str p)) as Hslot.
    assert (stat_strs st1 = if str_in (p_stat_str p) (stat_strs st)
                            then stat_strs st
                            else stat_strs st ++ [p_stat_str p]) as Hs1.
    { rewrite Hst1. now destruct (str_in (p_stat_str p) (stat_strs st)). }
    assert (ids st1 = ids st ++ [slot_of (stat_strs st) (p_stat_str p)]) as Hi1.
    { rewrite Hst1. now destruct (str_in (p_stat_str p) (stat_strs st)). }
    exists ((if str_in (p_stat_str p) (stat_strs st) then [] else [p_stat_str p]) ++ ext),
           (slot_of (stat_strs st) (p_stat_str p) :: new).
    repeat split.
    + rewrite Hs, Hs1.
      destruct (str_in (p_stat_str p) (stat_strs st)); simpl; [reflexivity|].
      now rewrite <- app_assoc.
    + rewrite Hi, Hi1. now rewrite <- app_assoc.
    + simpl. now rewrite Hlen.
    + intros [|i] name' Hn; simpl in Hn.
      * injection Hn as <-. exists p, (slot_of (stat_strs st) (p_stat_str p)).
        repeat split; [exact Hp|].
        rewrite Hs. apply index_app_l. now rewrite Hs1.
      * destruct (Hall i name' Hn) as (p' & k & ? & ? & ?). exists p', k. auto.
Qed.

(** Deduplication: in a request list that resolves, every request has a
    slot, and two requests share a slot exactly when they have the same
    composite key. *)
Lemma loop_slots (str_names : list string) (st : LoopState) :
  loop loop_init str_names = inr st ->
  List.length (ids st) = List.length str_names
  /\ forall i name, str_names !! i = Some name ->
       exists p k, parse_name name = inr p
                   /\ ids st !! i = Some k
                   /\ index (p_stat_str p) (stat_strs st) = Some k.
Proof.
  intros Hl.
  destruct (loop_invariant _ _ _ Hl) as (ext & new & _ & Hids & Hlen & Hall).
  simpl in Hids. subst new. now split.
Qed.

Lemma same_slot_iff_same_key (str_names : list string) (st : LoopState)
    (i j : nat) (p q : Parsed) (name1 name2 : string) :
  loop loop_init str_names = inr st ->
  str_names !! i = Some name1 -> parse_name name1 = inr p ->
  str_names !! j = Some name2 -> parse_name name2 = inr q ->
  (ids st !! i = ids st !! j <-> p_stat_str p = p_stat_str q).
Proof.
  intros Hl Hi Hp Hj Hq.
  destruct (loop_slots _ _ Hl) as [_ Hall].
  destruct (Hall i _ Hi) as (p' & a & Hp' & Ha & Hka).
  destruct (Hall j _ Hj) as (q' & b & Hq' & Hb & Hkb).
  rewrite Hp in Hp'. injection Hp' as <-.
  rewrite Hq in Hq'. injection Hq' as <-.
  rewrite Ha, Hb. split.
  - intros [= <-]. apply index_lookup in Hka, Hkb. congruence.
  - intros Heq. rewrite Heq in Hka. congruence.
Qed.

(** The loop raises nothing but [UnsupportedStatisticKind], and raises
    it as soon as one request has an unsupported trailing token. *)
Lemma loop_inl (str_names : list string) (st : LoopState) (e : Error) :
  loop st str_names = inl e ->
  exists stat, e = UnsupportedStatisticKind stat
               /\ supported_kind (Some stat) = false.
Proof.
  revert st. induction str_names as [|name rest IH]; intros st; simpl.
  - discriminate.
  - destruct (loop_body st name) as [e'|st1] eqn:Hb.
    + intros [= ->]. apply loop_body_inl in Hb.
      destruct (parse_name_inl _ _ Hb) as (stat & -> & _ & Hk). eauto.
    + apply IH.
Qed.

Lemma loop_unsupported (str_names : list string) (st : LoopState) :
  (exists name, name ∈ str_names
                /\ supported_kind (trailing_token name) = false) ->
  exists e, loop st str_names = inl e.
Proof.
  revert st. induction str_names as [|name rest IH]; intros st (bad & Hin & Hbad).
  - now apply elem_of_nil in Hin.
  - simpl. destruct (loop_body st name) as [e|st1] eqn:Hb; [eauto|].
    apply IH. exists bad. split; [|exact Hbad].
    apply elem_of_cons in Hin as [->|Hin]; [|exact Hin].
    exfalso. destruct (parse_name name) as [e|p] eqn:Hp.
    + unfold loop_body in Hb. rewrite Hp in Hb. discriminate.
    + destruct (parse_name_inr _ _ Hp) as (Ht & Hk & _).
      rewrite Ht, Hk in Hbad. discriminate.
Qed.

(** ** compute_stats, from any trace *)

Lemma compute_stats_unfold (str_names : list string) (ds : AtomicDataset)
    (stride : Value) (tr : list StatCall) :
  compute_stats str_names ds stride tr
  = match loop loop_init str_names with
    | inl e => (inl e, tr)
    | inr st =>
        (match statistics ds (stat_fields st) (stat_modes st) stride with
         | None => inl DatasetError
         | Some values => collect values (tuple_ids st) 0 (ids st)
         end,
         tr ++ [mkStatCall (stat_fields st) (stat_modes st) stride])
    end.
Proof.
  unfold compute_stats, bind, lift, call_statistics.
  destruct (loop loop_init str_names) as [e|st]; [reflexivity|].
  destruct (statistics ds (stat_fields st) (stat_modes st) stride); reflexivity.
Qed.

(** [compute_stats] calls the dataset at most once, after the loop. *)
Lemma compute_stats_trace (str_names : list string) (ds : AtomicDataset)
    (stride : Value) (tr : list StatCall) :
  snd (compute_stats str_names ds stride tr)
  = match loop loop_init str_names with
    | inl _ => tr
    | inr st => tr ++ [mkStatCall (stat_fields st) (stat_modes st) stride]
    end.
Proof.
  rewrite compute_stats_unfold. now destruct (loop loop_init str_names).
Qed.

(** C4: resolving ["energy_mean", "energy_std"] builds one slot, with
    field "energy" and mode "mean_std", calls the dataset once with that
    slot, and returns entries 0 and 1 of the slot's tuple. *)
Theorem C4_mean_std_share_one_slot (ds : AtomicDataset) (stride : Value)
    (values : list (list Value)) (tup : list Value) (m s : Value) :
  statistics ds ["energy"] ["mean_std"] stride = Some values ->
  values !! 0 = Some tup ->
  tup !! 0 = Some m ->
  tup !! 1 = Some s ->
  loop loop_init ["energy_mean"; "energy_std"]
  = inr (mkLoop ["mean_std"] ["energy"] ["energymean_std"] [0; 0] [0; 1])
  /\ run (compute_stats ["energy_mean"; "energy_std"] ds stride)
     = (inr [m; s], [mkStatCall ["energy"] ["mean_std"] stride]).
Proof.
  intros Hds Hv Hm Hs.
  assert (loop loop_init ["energy_mean"; "energy_std"]
          = inr (mkLoop ["mean_std"] ["energy"] ["energymean_std"] [0; 0] [0; 1]))
    as Hloop by reflexivity.
  split; [exact Hloop|].
  unfold run. rewrite compute_stats_unfold, Hloop.
  cbn [stat_fields stat_modes tuple_ids ids]. rewrite Hds.
  unfold collect, pick. rewrite Hv. cbn. rewrite Hm, Hs. reflexivity.
Qed.

Lemma C4_witness :
  run (compute_stats ["energy_mean"; "energy_std"] two_stats (VInt 1))
  = (inr [VFloat 3; VFloat 0.5], [mkStatCall ["energy"] ["mean_std"] (VInt 1)]).
Proof.
  exact (proj2 (C4_mean_std_share_one_slot two_stats (VInt 1)
                  [[VFloat 3; VFloat 0.5]] [VFloat 3; VFloat 0.5]
                  (VFloat 3) (VFloat 0.5)
                  eq_refl eq_refl eq_refl eq_refl)).
Defined.

(** The [dataset_] prefix does not make a new slot. *)
Example dataset_prefix_same_slot :
  run (compute_stats ["dataset_energy_mean"; "energy_mean"] two_stats (VInt 1))
  = (inr [VFloat 3; VFloat 3], [mkStatCall ["energy"] ["mean_std"] (VInt 1)]).
Proof. reflexivity. Qed.

(** C5: when some request has a trailing token other than mean, std or
    rms, resolution raises [UnsupportedStatisticKind] and the dataset is
    not called. *)
Theorem C5_unknown_kind_fails_before_dataset (str_names : list string)
    (ds : AtomicDataset) (stride : Value) :
  (exists name, name ∈ str_names
                /\ supported_kind (trailing_token name) = false) ->
  exists stat,
    supported_kind (Some stat) = false
    /\ run (compute_stats str_names ds stride)
       = (inl (UnsupportedStatisticKind stat), []).
Proof.
  intros Hbad. unfold run. rewrite compute_stats_unfold.
  destruct (loop_unsupported str_names loop_init Hbad) as [e He].
  rewrite He. destruct (loop_inl _ _ _ He) as (stat & -> & Hk). eauto.
Qed.

Lemma C5_witness :
  exists stat,
    supported_kind (Some stat) = false
    /\ run (compute_stats ["energy_mean"; "energy_foo"] two_stats (VInt 1))
       = (inl (UnsupportedStatisticKind stat), []).
Proof.
  apply C5_unknown_kind_fails_before_dataset.
  exists "energy_foo". split; [|reflexivity].
  apply elem_of_cons. right. apply elem_of_cons. left. reflexivity.
Defined.

(** C9: in any request list that resolves, "per_species_energy_mean"
    and "energy_mean" have the same field name, different composite
    keys, and different slots. *)
Theorem C9_granularity_isolation (str_names : list string) (st : LoopState)
    (i j : nat) :
  loop loop_init str_names = inr st ->
  str_names !! i = Some "per_species_energy_mean" ->
  str_names !! j = Some "energy_mean" ->
  exists p q a b,
    parse_name "per_species_energy_mean" = inr p
    /\ parse_name "energy_mean" = inr q
    /\ p_field p = "energy" /\ p_field q = "energy"
    /\ p_stat_str p <> p_stat_str q
    /\ ids st !! i = Some a /\ ids st !! j = Some b
    /\ a <> b.
Proof.
  intros Hl Hi Hj.
  destruct (loop_slots _ _ Hl) as [_ Hall].
  destruct (Hall i _ Hi) as (p & a & Hp & Ha & Hka).
  destruct (Hall j _ Hj) as (q & b & Hq & Hb & Hkb).
  exists p, q, a, b.
  injection Hp as <-. injection Hq as <-.
  repeat split; try assumption; try discriminate.
  intros ->. apply index_lookup in Hka, Hkb. rewrite Hka in Hkb. discriminate.
Qed.

Lemma C9_witness :
  exists p q a b,
    parse_name "per_species_energy_mean" = inr p
    /\ parse_name "energy_mean" = inr q
    /\ p_field p = "energy" /\ p_field q = "energy"
    /\ p_stat_str p <> p_stat_str q
    /\ [0; 1] !! 0 = Some a /\ [0; 1] !! 1 = Some b
    /\ a <> b.
Proof.
  exact (C9_granularity_isolation
           ["per_species_energy_mean"; "energy_mean"]
           (mkLoop ["per_species_mean_std"; "mean_std"] ["energy"; "energy"]
                   ["energyper_species_mean_std"; "energymean_std"] [0; 1] [0; 0])
           0 1 eq_refl eq_refl eq_refl).
Defined.

(** C10: "per_species_x_mean" (field "x", per-species) and
    "xper_species__mean" (field "xper_species_", global) have the same
    composite key; resolved together they share slot 0, the dataset is
    asked for field "x" only, and both results are entry 0 of that
    slot's tuple. *)
Theorem C10_key_collision (ds : AtomicDataset) (stride : Value)
    (values : list (list Value)) (tup : list Value) (v : Value) :
  statistics ds ["x"] ["per_species_mean_std"] stride = Some values ->
  values !! 0 = Some tup ->
  tup !! 0 = Some v ->
  exists p q,
    parse_name "per_species_x_mean" = inr p
    /\ parse_name "xper_species__mean" = inr q
    /\ p_field p = "x" /\ p_prefix p = "per_species_"
    /\ p_field q = "xper_species_" /\ p_prefix q = ""
    /\ p_stat_str p = p_stat_str q
    /\ loop loop_init ["per_species_x_mean"; "xper_species__mean"]
       = inr (mkLoop ["per_species_mean_std"] ["x"] ["xper_species_mean_std"]
                     [0; 0] [0; 0])
    /\ run (compute_stats ["per_species_x_mean"; "xper_species__mean"] ds stride)
       = (inr [v; v], [mkStatCall ["x"] ["per_species_mean_std"] stride]).
Proof.
  intros Hds Hv Ht.
  eexists _, _. split; [reflexivity|]. split; [reflexivity|].
  assert (loop loop_init ["per_species_x_mean"; "xper_species__mean"]
          = inr (mkLoop ["per_species_mean_std"] ["x"] ["xper_species_mean_std"]
                        [0; 0] [0; 0])) as Hloop by reflexivity.
  repeat split; try reflexivity.
  unfold run. rewrite compute_stats_unfold, Hloop.
  cbn [stat_fields stat_modes tuple_ids ids]. rewrite Hds.
  unfold collect, pick. rewrite Hv. cbn. rewrite Ht. reflexivity.
Qed.

Lemma C10_witness :
  run (compute_stats ["per_species_x_mean"; "xper_species__mean"] two_stats (VInt 1))
  = (inr [VFloat 3; VFloat 3], [mkStatCall ["x"] ["per_species_mean_std"] (VInt 1)]).
Proof.
  destruct (C10_key_collision two_stats (VInt 1)
              [[VFloat 3; VFloat 0.5]] [VFloat 3; VFloat 0.5] (VFloat 3)
              eq_refl eq_refl eq_refl)
    as (p & q & _ & _ & _ & _ & _ & _ & _ & _ & H).
  exact H.
Defined.

(** ** Floats *)

Lemma SFcompare_antisym (x y : spec_float) :
  SFcompare y x = option_map CompOpp (SFcompare x y).
Proof.
  destruct x as [sx|sx| |sx mx ex], y as [sy|sy| |sy my ey];
    try reflexivity;
    try (destruct sx; reflexivity);
    try (destruct sy; reflexivity);
    try (destruct sx, sy; reflexivity).
  simpl. destruct sx, sy; simpl; try reflexivity.
  - rewrite (Z.compare_antisym ex ey).
    destruct (ex ?= ey)%Z; simpl; try reflexivity.
    change (Pos.compare_cont Eq my mx) with (my ?= mx)%positive.
    change (Pos.compare_cont Eq mx my) with (mx ?= my)%positive.
    now rewrite (Pos.compare_antisym mx my), CompOpp_involutive.
  - rewrite (Z.compare_antisym ex ey).
    destruct (ex ?= ey)%Z; simpl; try reflexivity.
    change (Pos.compare_cont Eq my mx) with (my ?= mx)%positive.
    change (Pos.compare_cont Eq mx my) with (mx ?= my)%positive.
    now rewrite (Pos.compare_antisym mx my).
Qed.

(** A float at or above another is not strictly below it. *)
Lemma leb_not_ltb (x y : float) :
  (x <=? y)%float = true -> (y <? x)%float = false.
Proof.
  rewrite leb_spec, ltb_spec. unfold SFleb, SFltb.
  rewrite (SFcompare_antisym (Prim2SF x) (Prim2SF y)).
  destruct (SFcompare (Prim2SF x) (Prim2SF y)) as [[]|]; simpl;
    intros; congruence.
Qed.

(** ** The trace through the monad *)

Lemma bind_unfold {A B} (m : M A) (k : A -> M B) (tr : list StatCall) :
  bind m k tr = match m tr with
                | (inl e, tr') => (inl e, tr')
                | (inr a, tr') => k a tr'
                end.
Proof. reflexivity. Qed.

(** A continuation that leaves the trace alone does not change it. *)
Lemma bind_trace {A B} (m : M A) (k : A -> M B) (tr : list StatCall) :
  (forall a tr', snd (k a tr') = tr') ->
  snd (bind m k tr) = snd (m tr).
Proof.
  intros Hk. unfold bind. destruct (m tr) as [[e|a] tr']; simpl; auto.
Qed.

(** ** The global variant *)

Lemma collect_str_names_global (global_scale global_shift : Value) :
  collect_str_names (fun v => is_float v || is_tensor v) global_scale
                    [global_scale; global_shift] []
  = if global_accepts global_scale global_shift
    then inr (global_requests global_scale global_shift)
    else inl (InvalidScaleSourceType global_scale).
Proof. destruct global_scale, global_shift; reflexivity. Qed.

Lemma resolve_global_unfold (config : gmap string Value) (ds : AtomicDataset)
    (global_scale global_shift : Value) (tr : list StatCall) :
  resolve_global config ds global_scale global_shift tr
  = if global_accepts global_scale global_shift then
      match config !! "dataset_statistics_stride" with
      | None => (inl (KeyError "dataset_statistics_stride"), tr)
      | Some stride =>
          let str_names := global_requests global_scale global_shift in
          match compute_stats str_names ds stride tr with
          | (inl e, tr') => (inl e, tr')
          | (inr computed_stats, tr') =>
              (match substitute global_scale str_names computed_stats with
               | inl e => inl e
               | inr scale =>
                   match substitute global_shift str_names computed_stats with
                   | inl e => inl e
                   | inr shift => inr (scale, shift)
                   end
               end, tr')
          end
      end
    else (inl (InvalidScaleSourceType global_scale), tr).
Proof.
  unfold resolve_global. rewrite collect_str_names_global.
  destruct (global_accepts global_scale global_shift); [|reflexivity].
  unfold bind at 1. unfold lift at 1. unfold config_attr.
  destruct (config !! "dataset_statistics_stride") as [stride|]; [|reflexivity].
  unfold bind at 1. unfold lift at 1. cbv zeta. unfold bind at 1.
  destruct (compute_stats _ ds stride tr) as [[e|computed] tr']; [reflexivity|].
  unfold bind, lift, ret.
  destruct (substitute global_scale _ computed); [reflexivity|].
  destruct (substitute global_shift _ computed); reflexivity.
Qed.

Lemma global_values_trace (config : gmap string Value) (ds : AtomicDataset)
    (global_scale global_shift : Value) (tr : list StatCall) :
  snd (global_values config ds true global_scale global_shift tr)
  = snd (resolve_global config ds global_scale global_shift tr).
Proof.
  unfold global_values. apply bind_trace. intros [a b] tr'.
  unfold bind, lift, ret. now destruct (check_threshold a).
Qed.

Lemma RescaleEnergyEtc_trace (FORCE_KEY TOTAL_ENERGY_KEY PER_ATOM_ENERGY_KEY : string)
    (model : GraphModel) (config : gmap string Value) (ds : AtomicDataset)
    (initialize : bool) :
  snd (run (RescaleEnergyEtc FORCE_KEY TOTAL_ENERGY_KEY PER_ATOM_ENERGY_KEY
              model config ds initialize))
  = snd (global_values config ds initialize
           (global_scale_source FORCE_KEY model config)
           (global_shift_source config) []).
Proof.
  unfold run, RescaleEnergyEtc. apply bind_trace. now intros [a b] tr'.
Qed.

Lemma global_requests_no_str (global_scale global_shift : Value) :
  is_str global_scale = false -> is_str global_shift = false ->
  global_requests global_scale global_shift = [].
Proof. destruct global_scale, global_shift; simpl; congruence. Qed.

(** C1, as the code has it: with [initialize] true, no request string
    among the sources, sources that pass validation and a configured
    stride, the dataset is called exactly once, with empty field and
    mode lists; resolving the empty request list makes that one call
    and returns the empty list when the call returns. *)
Theorem C1_empty_requests_call_dataset_once
    (FORCE_KEY TOTAL_ENERGY_KEY PER_ATOM_ENERGY_KEY : string)
    (model : GraphModel) (config : gmap string Value) (ds : AtomicDataset)
    (stride : Value) :
  is_str (global_scale_source FORCE_KEY model config) = false ->
  is_str (global_shift_source config) = false ->
  global_accepts (global_scale_source FORCE_KEY model config)
                 (global_shift_source config) = true ->
  config !! "dataset_statistics_stride" = Some stride ->
  snd (run (RescaleEnergyEtc FORCE_KEY TOTAL_ENERGY_KEY PER_ATOM_ENERGY_KEY
              model config ds true))
  = [mkStatCall [] [] stride]
  /\ run (compute_stats [] ds stride)
     = (match statistics ds [] [] stride with
        | Some _ => inr []
        | None => inl DatasetError
        end, [mkStatCall [] [] stride]).
Proof.
  intros Hs Hh Hacc Hstride. split.
  - rewrite RescaleEnergyEtc_trace, global_values_trace, resolve_global_unfold.
    rewrite Hacc, Hstride, (global_requests_no_str _ _ Hs Hh). cbv zeta.
    pose proof (compute_stats_trace [] ds stride []) as Ht. simpl in Ht.
    destruct (compute_stats [] ds stride []) as [[e|computed] tr']; exact Ht.
  - unfold run. rewrite compute_stats_unfold. simpl.
    now destruct (statistics ds [] [] stride).
Qed.

(** C1 as stated fails: both sources are literal numbers, no request
    string is collected, and the dataset is called all the same. *)
Lemma C1_counterexample :
  is_str (global_scale_source "forces" force_model literal_config) = false
  /\ is_str (global_shift_source literal_config) = false
  /\ snd (run (RescaleEnergyEtc "forces" "total_energy" "atomic_energy"
                 force_model literal_config two_stats true)) <> []
  /\ snd (run (compute_stats [] two_stats (VInt 1))) <> [].
Proof. repeat split; vm_compute; discriminate. Qed.

Lemma C1_witness :
  snd (run (RescaleEnergyEtc "forces" "total_energy" "atomic_energy"
              force_model literal_config two_stats true))
  = [mkStatCall [] [] (VInt 1)]
  /\ run (compute_stats [] two_stats (VInt 1))
     = (match statistics two_stats [] [] (VInt 1) with
        | Some _ => inr []
        | None => inl DatasetError
        end, [mkStatCall [] [] (VInt 1)]).
Proof.
  apply (C1_empty_requests_call_dataset_once
           "forces" "total_energy" "atomic_energy"
           force_model literal_config two_stats (VInt 1));
    reflexivity.
Defined.

(** C3 at the failing input: with [initialize] true, a valid scale
    source and the shift source None, the global variant raises
    [InvalidScaleSourceType], before any dataset access. *)
Theorem C3_none_shift_rejected
    (FORCE_KEY TOTAL_ENERGY_KEY PER_ATOM_ENERGY_KEY : string)
    (model : GraphModel) (config : gmap string Value) (ds : AtomicDataset) :
  global_valid (global_scale_source FORCE_KEY model config) = true ->
  global_shift_source config = VNone ->
  run (RescaleEnergyEtc FORCE_KEY TOTAL_ENERGY_KEY PER_ATOM_ENERGY_KEY
         model config ds true)
  = (inl (InvalidScaleSourceType (global_scale_source FORCE_KEY model config)), []).
Proof.
  intros Hv Hn.
  unfold run, RescaleEnergyEtc, global_values.
  rewrite !bind_unfold, resolve_global_unfold, Hn.
  destruct (global_scale_source FORCE_KEY model config); try discriminate;
    reflexivity.
Qed.

Lemma C3_witness :
  run (RescaleEnergyEtc "forces" "total_energy" "atomic_energy"
         force_model none_shift_config two_stats true)
  = (inl (InvalidScaleSourceType (VStr "dataset_force_rms")), []).
Proof.
  exact (C3_none_shift_rejected "forces" "total_energy" "atomic_energy"
           force_model none_shift_config two_stats eq_refl eq_refl).
Defined.

(** The other side of the same test: with the scale source None, a
    shift source of any type is let through. *)
Lemma none_scale_accepts_any_shift (global_shift : Value) :
  global_accepts VNone global_shift = true.
Proof. reflexivity. Qed.

(** Only a Python float is compared with the threshold. *)
Lemma check_threshold_not_float (global_scale : Value) :
  is_float global_scale = false -> check_threshold global_scale = inr tt.
Proof. now destruct global_scale. Qed.

(** C6, as the code has it: the scale after substitution is compared
    with the threshold only when it is a Python float.  A float [f]
    below 1e-6 raises [DegenerateScaleError] carrying [f]; a float at
    or above 1e-6, and a scale that is not a float (an int, a tensor),
    give the wrapper scaled by it. *)
Theorem C6_degenerate_scale
    (FORCE_KEY TOTAL_ENERGY_KEY PER_ATOM_ENERGY_KEY : string)
    (model : GraphModel) (config : gmap string Value) (ds : AtomicDataset)
    (scale shift : Value) (tr : list StatCall) :
  run (resolve_global config ds (global_scale_source FORCE_KEY model config)
                      (global_shift_source config))
  = (inr (scale, shift), tr) ->
  (forall f, scale = VFloat f -> (f <? RESCALE_THRESHOLD)%float = true ->
     run (RescaleEnergyEtc FORCE_KEY TOTAL_ENERGY_KEY PER_ATOM_ENERGY_KEY
            model config ds true)
     = (inl (DegenerateScaleError f), tr))
  /\ (forall f, scale = VFloat f -> (RESCALE_THRESHOLD <=? f)%float = true ->
        exists out,
          run (RescaleEnergyEtc FORCE_KEY TOTAL_ENERGY_KEY PER_ATOM_ENERGY_KEY
                 model config ds true)
          = (inr out, tr)
          /\ scale_by out = scale /\ shift_by out = shift)
  /\ (is_float scale = false ->
      exists out,
        run (RescaleEnergyEtc FORCE_KEY TOTAL_ENERGY_KEY PER_ATOM_ENERGY_KEY
               model config ds true)
        = (inr out, tr)
        /\ scale_by out = scale /\ shift_by out = shift).
Proof.
  unfold run. intros Hres.
  unfold RescaleEnergyEtc, global_values. rewrite !bind_unfold, Hres.
  unfold lift, ret. split; [|split].
  - intros f -> Hlt. unfold check_threshold. now rewrite Hlt.
  - intros f -> Hge. unfold check_threshold. rewrite (leb_not_ltb _ _ Hge).
    eexists. repeat split.
  - intros Hnf. rewrite (check_threshold_not_float _ Hnf).
    eexists. repeat split.
Qed.

Lemma C6_witness :
  run (RescaleEnergyEtc "forces" "total_energy" "atomic_energy"
         force_model default_config tiny_forces true)
  = (inl (DegenerateScaleError 1e-8),
     [mkStatCall ["force"; "energy"] ["rms"; "mean_std"] (VInt 1)]).
Proof.
  exact (proj1 (C6_degenerate_scale "forces" "total_energy" "atomic_energy"
                  force_model default_config tiny_forces (VFloat 1e-8) (VFloat 3)
                  [mkStatCall ["force"; "energy"] ["rms"; "mean_std"] (VInt 1)]
                  eq_refl)
               1e-8%float eq_refl eq_refl).
Defined.

(** C6 as stated fails: a scale resolved as a one-entry tensor holding
    2^-30, or as the int 0, is a scalar below the threshold, and the
    wrapper is built with it. *)
Lemma C6_counterexample :
  (0x1p-30 <? RESCALE_THRESHOLD)%float = true
  /\ (exists out tr,
        run (RescaleEnergyEtc "forces" "total_energy" "atomic_energy"
               force_model default_config tiny_forces_tensor true)
        = (inr out, tr)
        /\ scale_by out = VTensor Float32 [0x1p-30]%float)
  /\ (exists out tr,
        run (RescaleEnergyEtc "forces" "total_energy" "atomic_energy"
               force_model default_config zero_int_stats true)
        = (inr out, tr)
        /\ scale_by out = VInt 0).
Proof.
  split; [reflexivity|]. split; eexists _, _; split; reflexivity.
Qed.

(** Above the threshold the same configuration is built. *)
Example scale_above_threshold :
  exists out,
    run (RescaleEnergyEtc "forces" "total_energy" "atomic_energy"
           force_model default_config two_stats true)
    = (inr out, [mkStatCall ["force"; "energy"] ["rms"; "mean_std"] (VInt 1)])
    /\ scale_by out = VFloat 2 /\ shift_by out = VFloat 3.
Proof. eexists. repeat split. Qed.

(** The error is raised in no other way. *)
Lemma degenerate_only_below_threshold
    (FORCE_KEY TOTAL_ENERGY_KEY PER_ATOM_ENERGY_KEY : string)
    (model : GraphModel) (config : gmap string Value) (ds : AtomicDataset)
    (f : float) (shift : Value) (tr : list StatCall) :
  run (resolve_global config ds (global_scale_source FORCE_KEY model config)
                      (global_shift_source config))
  = (inr (VFloat f, shift), tr) ->
  fst (run (RescaleEnergyEtc FORCE_KEY TOTAL_ENERGY_KEY PER_ATOM_ENERGY_KEY
              model config ds true)) = inl (DegenerateScaleError f) ->
  (f <? RESCALE_THRESHOLD)%float = true.
Proof.
  unfold run. intros Hres.
  unfold RescaleEnergyEtc, global_values. rewrite !bind_unfold, Hres.
  unfold lift, check_threshold, ret.
  destruct (f <? RESCALE_THRESHOLD)%float; [reflexivity|discriminate].
Qed.

(** C7: with [initialize] false the global variant never calls the
    dataset; a scale source other than None becomes 1.0, a shift source
    other than None becomes 0.0, and None stays None. *)
Theorem C7_skip_stats
    (FORCE_KEY TOTAL_ENERGY_KEY PER_ATOM_ENERGY_KEY : string)
    (model : GraphModel) (config : gmap string Value) (ds : AtomicDataset) :
  exists out,
    run (RescaleEnergyEtc FORCE_KEY TOTAL_ENERGY_KEY PER_ATOM_ENERGY_KEY
           model config ds false)
    = (inr out, [])
    /\ scale_by out = neutral (global_scale_source FORCE_KEY model config) 1
    /\ shift_by out = neutral (global_shift_source config) 0.
Proof.
  eexists. unfold run, RescaleEnergyEtc, global_values, neutral.
  rewrite bind_unfold. unfold ret. cbn [scale_by shift_by].
  split; [reflexivity|]. cbn [scale_by shift_by].
  split.
  - now destruct (global_scale_source FORCE_KEY model config).
  - now destruct (global_shift_source config).
Qed.

Example skip_stats_energy_std :
  exists out,
    run (RescaleEnergyEtc "forces" "total_energy" "atomic_energy" force_model
           (<[ "global_rescale_scale" := VStr "dataset_energy_std" ]> default_config)
           two_stats false)
    = (inr out, [])
    /\ scale_by out = VFloat 1 /\ shift_by out = VFloat 0.
Proof. eexists. repeat split. Qed.

(** ** Which exceptions the parts can raise *)

Lemma collect_inl (values : list (list Value)) (tids : list nat) (i0 : nat)
    (slots : list nat) (e : Error) :
  collect values tids i0 slots = inl e -> e = IndexError.
Proof.
  revert i0. induction slots as [|idx rest IH]; intros i0; simpl; [discriminate|].
  destruct (pick values tids i0 idx) as [e'|v] eqn:Hp.
  - intros [= <-]. unfold pick in Hp.
    destruct (values !! idx); [|congruence].
    destruct (tids !! i0); [|congruence].
    destruct (_ !! _); congruence.
  - destruct (collect values tids (S i0) rest) eqn:Hc; [|discriminate].
    intros [= <-]. eauto.
Qed.

Lemma collect_str_names_inl (valid : Value -> bool) (global_scale : Value)
    (values : list Value) (acc : list string) (e : Error) :
  collect_str_names valid global_scale values acc = inl e ->
  e = InvalidScaleSourceType global_scale.
Proof.
  revert acc. induction values as [|v rest IH]; intros acc; simpl; [discriminate|].
  destruct v; try apply IH;
    (destruct (is_None global_scale || valid _); [apply IH|congruence]).
Qed.

Lemma compute_stats_inl (str_names : list string) (ds : AtomicDataset)
    (stride : Value) (tr : list StatCall) (e : Error) :
  fst (compute_stats str_names ds stride tr) = inl e ->
  (exists stat, e = UnsupportedStatisticKind stat)
  \/ e = DatasetError \/ e = IndexError.
Proof.
  rewrite compute_stats_unfold.
  destruct (loop loop_init str_names) as [e'|st] eqn:Hl; simpl.
  - intros [= <-]. destruct (loop_inl _ _ _ Hl) as (stat & -> & _). eauto.
  - destruct (statistics ds _ _ stride); [|intros [= <-]; auto].
    intros H. apply collect_inl in H. auto.
Qed.

Lemma substitute_inl (v : Value) (str_names : list string)
    (computed_stats : list Value) (e : Error) :
  substitute v str_names computed_stats = inl e ->
  (exists s, e = ValueError_not_in_list s) \/ e = IndexError.
Proof.
  unfold substitute. destruct v; try discriminate.
  destruct (index s str_names); [|intros [= <-]; eauto].
  destruct (_ !! _); [discriminate|]. intros [= <-]. auto.
Qed.

Lemma to_float_inl (n : Number) (e : Error) :
  to_float n = inl e -> arithmetic_error e = true.
Proof.
  destruct n; simpl; [|discriminate]. unfold float_of_int.
  destruct (is_infinity _); [|discriminate]. now intros [= <-].
Qed.

Lemma number_div_inl (x y : Number) (e : Error) :
  number_div x y = inl e -> arithmetic_error e = true.
Proof.
  unfold number_div.
  assert (forall a b, int_truediv a b = inl e -> arithmetic_error e = true) as Hint.
  { intros a b. unfold int_truediv. destruct (b =? 0)%Z; [now intros [= <-]|].
    destruct (is_infinity _); [now intros [= <-]|discriminate]. }
  assert (forall x y, match to_float x, to_float y with
                      | inl e, _ | _, inl e => inl e
                      | inr x', inr y' =>
                          if (y' =? 0)%float then inl ZeroDivisionError
                          else inr (x' / y')%float
                      end = inl e -> arithmetic_error e = true) as Hflt.
  { intros a b. destruct (to_float a) eqn:Ha.
    - intros [= <-]. eapply to_float_inl, Ha.
    - destruct (to_float b) eqn:Hb.
      + intros [= <-]. eapply to_float_inl, Hb.
      + destruct (_ =? _)%float; [now intros [= <-]|discriminate]. }
  destruct x, y; eauto.
Qed.

Lemma itruediv_inl (a b : Value) (e : Error) :
  itruediv a b = inl e -> arithmetic_error e = true.
Proof.
  assert (forall v (k : float -> Value),
            match as_number v with
            | Some n => match to_float n with
                        | inl e => inl e
                        | inr y => inr (k y)
                        end
            | None => inl TypeError
            end = inl e -> arithmetic_error e = true) as Hbroadcast.
  { intros v k. destruct (as_number v) as [n|]; [|now intros [= <-]].
    destruct (to_float n) eqn:Hn; [|discriminate].
    intros [= <-]. eapply to_float_inl, Hn. }
  assert (forall v w,
            match as_number v, as_number w with
            | Some x, Some y => match number_div x y with
                                | inl e => inl e
                                | inr q => inr (VFloat q)
                                end
            | _, _ => inl TypeError
            end = inl e -> arithmetic_error e = true) as Hnum.
  { intros v w. destruct (as_number v) as [x|]; [|now intros [= <-]].
    destruct (as_number w) as [y|]; [|now intros [= <-]].
    destruct (number_div x y) eqn:Hd; [|discriminate].
    intros [= <-]. eapply number_div_inl, Hd. }
  unfold itruediv.
  destruct a as [| | | | | |dta ta], b as [| | | | | |dtb tb];
    try apply Hnum;
    try (apply (Hbroadcast _
                  (fun y => VTensor dta
                              (map (fun x => cast dta (x / cast dta y))%float ta))));
    try (apply (Hbroadcast _
                  (fun x => VTensor dtb
                              (map (fun y => cast dtb (cast dtb (1 / y) * cast dtb x))%float
                                   tb)))).
  destruct (Nat.eqb _ _); [discriminate|].
  destruct tb as [|y [|y' u]]; try discriminate; now intros [= <-].
Qed.

(** ** The per-species variant *)

Lemma bind_inl {A B} (m : M A) (k : A -> M B) (tr : list StatCall) (e : Error) :
  fst (bind m k tr) = inl e ->
  fst (m tr) = inl e
  \/ exists a tr', m tr = (inr a, tr') /\ fst (k a tr') = inl e.
Proof.
  unfold bind. destruct (m tr) as [[e'|a] tr']; simpl.
  - intros [= <-]. now left.
  - intros H. right. exists a, tr'. now split.
Qed.

(** [per_species_values] never raises [ConflictingShiftConfigError]. *)
Lemma per_species_values_inl (config : gmap string Value) (ds : AtomicDataset)
    (initialize : bool) (scales shifts global_scale : Value)
    (tr : list StatCall) (e : Error) :
  fst (per_species_values config ds initialize scales shifts global_scale tr)
  = inl e ->
  e <> ConflictingShiftConfigError.
Proof.
  unfold per_species_values. destruct initialize; [|discriminate].
  intros H.
  apply bind_inl in H as [H|(names & tr1 & _ & H)].
  { apply collect_str_names_inl in H. congruence. }
  apply bind_inl in H as [H|(stride & tr2 & _ & H)].
  { unfold lift, config_attr in H. simpl in H.
    destruct (config !! _); [discriminate|]. congruence. }
  apply bind_inl in H as [H|(computed & tr3 & _ & H)].
  { apply compute_stats_inl in H as [[stat ->]|[->| ->]]; discriminate. }
  apply bind_inl in H as [H|(scales' & tr4 & _ & H)].
  { apply substitute_inl in H as [[s ->]| ->]; discriminate. }
  apply bind_inl in H as [H|(shifts' & tr5 & _ & H)].
  { apply substitute_inl in H as [[s ->]| ->]; discriminate. }
  apply bind_inl in H as [H|(gs' & tr6 & _ & H)].
  { apply substitute_inl in H as [[s ->]| ->]; discriminate. }
  destruct (is_None gs'); [discriminate|].
  apply bind_inl in H as [H|(q & tr7 & _ & H)]; [|discriminate].
  apply itruediv_inl in H. intros ->. discriminate.
Qed.

(** C2, as the code has it: the per-species variant raises
    [ConflictingShiftConfigError] exactly when the global shift source
    is not None, whether or not a per-species shift is configured; it
    does so for either value of [initialize] and before any dataset
    access. *)
Theorem C2_conflict_iff_global_shift (FORCE_KEY PER_ATOM_ENERGY_KEY : string)
    (model : GraphModel) (config : gmap string Value) (ds : AtomicDataset)
    (initialize : bool) :
  (fst (run (PerSpecieRescale FORCE_KEY PER_ATOM_ENERGY_KEY
               model config ds initialize))
   = inl ConflictingShiftConfigError
   <-> ps_global_shift_source config <> VNone)
  /\ (ps_global_shift_source config <> VNone ->
      run (PerSpecieRescale FORCE_KEY PER_ATOM_ENERGY_KEY
             model config ds initialize)
      = (inl ConflictingShiftConfigError, [])).
Proof.
  assert (ps_global_shift_source config <> VNone ->
          run (PerSpecieRescale FORCE_KEY PER_ATOM_ENERGY_KEY
                 model config ds initialize)
          = (inl ConflictingShiftConfigError, [])) as Hraise.
  { intros Hne. unfold run, PerSpecieRescale.
    destruct (ps_global_shift_source config); [congruence| | | | | |]; reflexivity. }
  split; [|exact Hraise]. split.
  - intros H Hnone. revert H. unfold run, PerSpecieRescale. rewrite Hnone.
    cbn [is_None negb]. intros H.
    apply bind_inl in H as [H|([[s' sh'] g'] & tr' & _ & H)].
    + now apply per_species_values_inl in H.
    + destruct (produces model FORCE_KEY); [|discriminate].
      destruct (func_inserted model); discriminate.
  - intros Hne. now rewrite (Hraise Hne).
Qed.

Lemma C2_witness :
  run (PerSpecieRescale "forces" "atomic_energy"
         force_model shift_only_config two_stats false)
  = (inl ConflictingShiftConfigError, []).
Proof.
  apply (C2_conflict_iff_global_shift "forces" "atomic_energy"
           force_model shift_only_config two_stats false).
  discriminate.
Defined.

(** C2 as stated fails: a global shift alone, with no per-species shift
    configured, raises the error. *)
Lemma C2_counterexample :
  ~ (fst (run (PerSpecieRescale "forces" "atomic_energy"
                 force_model shift_only_config two_stats true))
     = inl ConflictingShiftConfigError
     <-> (ps_global_shift_source shift_only_config <> VNone
          /\ shifts_source shift_only_config <> VNone)).
Proof.
  intros [H _]. destruct (H eq_refl) as [_ Hshifts].
  apply Hshifts. reflexivity.
Qed.

(** C8 at the failing input: with [initialize] true, no per-species
    scales configured and a global scale source other than None, the
    per-species variant raises [InvalidScaleSourceType] in validation,
    before any dataset access and before the division. *)
Theorem C8_default_scales_rejected (FORCE_KEY PER_ATOM_ENERGY_KEY : string)
    (model : GraphModel) (config : gmap string Value) (ds : AtomicDataset) :
  scales_source config = VNone ->
  ps_global_shift_source config = VNone ->
  is_None (ps_global_scale_source FORCE_KEY model config) = false ->
  run (PerSpecieRescale FORCE_KEY PER_ATOM_ENERGY_KEY model config ds true)
  = (inl (InvalidScaleSourceType (ps_global_scale_source FORCE_KEY model config)),
     []).
Proof.
  intros Hs Hg Hn. unfold run, PerSpecieRescale, per_species_values.
  rewrite Hs, Hg. cbn [is_None negb collect_str_names]. rewrite Hn.
  reflexivity.
Qed.

Lemma C8_witness :
  run (PerSpecieRescale "forces" "atomic_energy"
         force_model default_config two_stats true)
  = (inl (InvalidScaleSourceType (VStr "dataset_force_rms")), []).
Proof.
  exact (C8_default_scales_rejected "forces" "atomic_energy"
           force_model default_config two_stats eq_refl eq_refl eq_refl).
Defined.

(** Had validation let None through, the division itself would raise. *)
Lemma itruediv_None (global_scale : Value) :
  itruediv VNone global_scale = inl TypeError.
Proof. now destruct global_scale. Qed.

(** A Python list passes validation and cannot be divided. *)
Lemma itruediv_list (l : list float) (global_scale : Value) :
  itruediv (VList l) global_scale = inl TypeError.
Proof. now destruct global_scale. Qed.

(** A tensor is divided entry by entry by a float, in its dtype. *)
Lemma itruediv_tensor_float (dtype : DType) (t : list float) (g : float) :
  itruediv (VTensor dtype t) (VFloat g)
  = inr (VTensor dtype (map (fun x => cast dtype (x / cast dtype g))%float t)).
Proof. reflexivity. Qed.

(** Tensor scales [2.0, 4.0] and global scale 2.0: the local [scales]
    becomes [1.0, 2.0], in place. *)
Example tensor_scales_divided :
  run (per_species_values tensor_scales_config two_stats true
         (scales_source tensor_scales_config)
         (shifts_source tensor_scales_config)
         (ps_global_scale_source "forces" force_model tensor_scales_config))
  = (inr (VTensor Float32 [1; 2]%float, VTensor Float32 [0; 0]%float, VFloat 2),
     [mkStatCall [] [] (VInt 1)]).
Proof. reflexivity. Qed.

(** The module is inserted with the fixed [params] and with [config] as
    [shared_params]: the local [scales] is not passed, and reaches the
    builder only where the division changed the configured tensor. *)
Example tensor_scales_insertion :
  exists ins l,
    run (PerSpecieRescale "forces" "atomic_energy"
           force_model tensor_scales_config two_stats true)
    = (inr (mkModel (irreps_out force_model) [] (Some [ins])), l)
    /\ ins_params ins = [("field", "atomic_energy"); ("out_field", "atomic_energy")]
    /\ ins_shared_params ins !! "PerSpeciesScaleShift_scales"
       = Some (VTensor Float32 [1; 2]%float).
Proof. eexists _, _. repeat split. Qed.

(** * Further properties *)

(** ** The slots built by the loop *)

Lemma str_in_false_not_elem (x : string) (l : list string) :
  str_in x l = false -> x ∉ l.
Proof.
  unfold str_in. induction l as [|y l IH]; simpl.
  - intros _. apply not_elem_of_nil.
  - destruct (String.eqb_spec x y) as [->|Hne]; [discriminate|].
    simpl. intros H. apply not_elem_of_cons. split; [exact Hne|now apply IH].
Qed.

Lemma parse_name_mode_known (name : string) (p : Parsed) :
  parse_name name = inr p -> p_stat_mode p ∈ known_modes.
Proof.
  unfold parse_name, strip_granularity.
  destruct (startswith (strip_dataset name) "per_species_");
    [|destruct (startswith (strip_dataset name) "per_atom_")];
    (destruct (last _) as [stat|]; [|discriminate]);
    (destruct (str_in stat ["mean"; "std"]);
     [|destruct (str_in stat ["rms"]); [|discriminate]]);
    intros [= <-]; apply list_elem_of_In; vm_compute; tauto.
Qed.

(** The effect of one iteration on each local. *)
Lemma loop_body_effect (st st1 : LoopState) (name : string) :
  loop_body st name = inr st1 ->
  exists p t,
    parse_name name = inr p
    /\ tuple_id_map (p_stat p) = Some t
    /\ tuple_ids st1 = tuple_ids st ++ [t]
    /\ ids st1 = ids st ++ [slot_of (stat_strs st) (p_stat_str p)]
    /\ (if str_in (p_stat_str p) (stat_strs st)
        then stat_strs st1 = stat_strs st
             /\ stat_fields st1 = stat_fields st
             /\ stat_modes st1 = stat_modes st
        else stat_strs st1 = stat_strs st ++ [p_stat_str p]
             /\ stat_fields st1 = stat_fields st ++ [p_field p]
             /\ stat_modes st1 = stat_modes st ++ [p_stat_mode p]).
Proof.
  intros Hb. destruct (parse_name name) as [e|p] eqn:Hp.
  { unfold loop_body in Hb. rewrite Hp in Hb. discriminate. }
  destruct (loop_body_parsed st name p Hp) as (t & Ht & Hb').
  rewrite Hb in Hb'. injection Hb' as ->.
  exists p, t. split; [reflexivity|]. split; [exact Ht|].
  destruct (str_in (p_stat_str p) (stat_strs st)); simpl; auto.
Qed.

Lemma loop_body_slots_ok (st st1 : LoopState) (name : string) :
  slots_ok st -> loop_body st name = inr st1 -> slots_ok st1.
Proof.
  intros (Hm & Hf & Hnd & Hk) Hb.
  destruct (loop_body_effect _ _ _ Hb) as (p & t & Hp & _ & _ & _ & Heff).
  destruct (str_in (p_stat_str p) (stat_strs st)) eqn:E.
  - destruct Heff as (Hs1 & Hf1 & Hm1). unfold slots_ok.
    rewrite Hs1, Hf1, Hm1. repeat split; assumption.
  - destruct Heff as (Hs1 & Hf1 & Hm1). unfold slots_ok.
    rewrite Hs1, Hf1, Hm1, !length_app. simpl.
    split; [lia|]. split; [lia|]. split.
    + apply NoDup_app. split; [exact Hnd|]. split; [|apply NoDup_singleton].
      intros x Hx Hx'. apply list_elem_of_singleton in Hx' as ->.
      now apply (str_in_false_not_elem _ _ E).
    + intros k key Hl. apply lookup_app_Some in Hl as [Hl|[Hge Hl]].
      * destruct (Hk k key Hl) as (f & m & Hfk & Hmk & Hkey & Hkn).
        exists f, m. repeat split; try assumption.
        -- now apply lookup_app_l_Some.
        -- now apply lookup_app_l_Some.
      * apply list_lookup_singleton_Some in Hl as [Hz <-].
        assert (k = List.length (stat_strs st)) as -> by lia.
        exists (p_field p), (p_stat_mode p). repeat split.
        -- rewrite <- Hf. rewrite lookup_app_r by lia. now rewrite Nat.sub_diag.
        -- rewrite <- Hm. rewrite lookup_app_r by lia. now rewrite Nat.sub_diag.
        -- now destruct (parse_name_inr _ _ Hp) as (_ & _ & _ & ->).
        -- now apply (parse_name_mode_known name).
Qed.

Lemma loop_slots_ok_from (str_names : list string) (st st' : LoopState) :
  slots_ok st -> loop st str_names = inr st' -> slots_ok st'.
Proof.
  revert st. induction str_names as [|name rest IH]; intros st Hok; simpl.
  - now intros [= <-].
  - destruct (loop_body st name) as [e|st1] eqn:Hb; [discriminate|].
    apply IH. now apply (loop_body_slots_ok st st1 name).
Qed.

Lemma slots_ok_init : slots_ok loop_init.
Proof.
  unfold slots_ok. split; [reflexivity|]. split; [reflexivity|].
  split; [apply NoDup_nil_2|].
  intros k key Hl. simpl in Hl. now rewrite lookup_nil in Hl.
Qed.

(** What the loop records for each request: its slot is the first
    position of its key, and its tuple index is that of its kind. *)
Lemma loop_requests_from (str_names : list string) (st st' : LoopState) :
  loop st str_names = inr st' ->
  exists ext newi newt,
    stat_strs st' = stat_strs st ++ ext
    /\ ids st' = ids st ++ newi
    /\ tuple_ids st' = tuple_ids st ++ newt
    /\ List.length newi = List.length str_names
    /\ List.length newt = List.length str_names
    /\ forall i name, str_names !! i = Some name ->
         exists p k t, parse_name name = inr p
                       /\ newi !! i = Some k
                       /\ newt !! i = Some t
                       /\ tuple_id_map (p_stat p) = Some t
                       /\ index (p_stat_str p) (stat_strs st') = Some k.
Proof.
  revert st. induction str_names as [|name rest IH]; intros st; simpl.
  - intros [= <-]. exists [], [], []. rewrite !app_nil_r. repeat split.
    intros i name Hi. now rewrite lookup_nil in Hi.
  - destruct (loop_body st name) as [e|st1] eqn:Hb; [discriminate|].
    intros Hl.
    destruct (IH st1 Hl) as (ext & newi & newt & Hs & Hi & Ht & Hli & Hlt & Hall).
    destruct (loop_body_effect _ _ _ Hb) as (p & t & Hp & Htid & Ht1 & Hi1 & Heff).
    pose proof (slot_of_index (stat_strs st) (p_stat_str p)) as Hslot.
    assert (stat_strs st1 = if str_in (p_stat_str p) (stat_strs st)
                            then stat_strs st
                            else stat_strs st ++ [p_stat_str p]) as Hs1.
    { destruct (str_in (p_stat_str p) (stat_strs st)); now destruct Heff. }
    exists ((if str_in (p_stat_str p) (stat_strs st) then [] else [p_stat_str p]) ++ ext),
           (slot_of (stat_strs st) (p_stat_str p) :: newi), (t :: newt).
    repeat split.
    + rewrite Hs, Hs1.
      destruct (str_in (p_stat_str p) (stat_strs st)); simpl; [reflexivity|].
      now rewrite <- app_assoc.
    + rewrite Hi, Hi1. now rewrite <- app_assoc.
    + rewrite Ht, Ht1. now rewrite <- app_assoc.
    + simpl. now rewrite Hli.
    + simpl. now rewrite Hlt.
    + intros [|i] name' Hn; simpl in Hn.
      * injection Hn as <-.
        exists p, (slot_of (stat_strs st) (p_stat_str p)), t.
        repeat split; try assumption.
        rewrite Hs. apply index_app_l. now rewrite Hs1.
      * destruct (Hall i name' Hn) as (p' & k & t' & ? & ? & ? & ? & ?).
        exists p', k, t'. auto.
Qed.

Lemma loop_requests (str_names : list string) (st : LoopState) :
  loop loop_init str_names = inr st ->
  List.length (ids st) = List.length str_names
  /\ List.length (tuple_ids st) = List.length str_names
  /\ forall i name, str_names !! i = Some name ->
       exists p k t, parse_name name = inr p
                     /\ ids st !! i = Some k
                     /\ tuple_ids st !! i = Some t
                     /\ tuple_id_map (p_stat p) = Some t
                     /\ index (p_stat_str p) (stat_strs st) = Some k.
Proof.
  intros Hl.
  destruct (loop_requests_from _ _ _ Hl)
    as (ext & newi & newt & _ & Hi & Ht & Hli & Hlt & Hall).
  simpl in Hi, Ht. subst newi newt. auto.
Qed.

(** The loop finishes when every request has a supported kind. *)
Lemma loop_supported (str_names : list string) (st : LoopState) :
  Forall (fun name => supported_kind (trailing_token name) = true) str_names ->
  exists st', loop st str_names = inr st'.
Proof.
  revert st. induction str_names as [|name rest IH]; intros st Hall; simpl.
  - eauto.
  - apply Forall_cons in Hall as [Hn Hrest].
    destruct (loop_body st name) as [e|st1] eqn:Hb; [|now apply IH].
    apply loop_body_inl in Hb.
    destruct (parse_name_inl _ _ Hb) as (stat & _ & Ht & Hk).
    rewrite Ht, Hk in Hn. discriminate.
Qed.

(** ** Reading the values back *)

Lemma collect_inr (values : list (list Value)) (tids : list nat) (i0 : nat)
    (slots : list nat) (vs : list Value) :
  collect values tids i0 slots = inr vs ->
  List.length vs = List.length slots
  /\ forall j idx, slots !! j = Some idx ->
       exists v, pick values tids (i0 + j) idx = inr v /\ vs !! j = Some v.
Proof.
  revert i0 vs. induction slots as [|idx rest IH]; intros i0 vs; simpl.
  - intros [= <-]. split; [reflexivity|]. intros j idx Hj.
    now rewrite lookup_nil in Hj.
  - destruct (pick values tids i0 idx) as [e|v] eqn:Hp; [discriminate|].
    destruct (collect values tids (S i0) rest) as [e|vs'] eqn:Hc; [discriminate|].
    intros [= <-]. destruct (IH _ _ Hc) as [Hlen Hall]. split.
    + simpl. now rewrite Hlen.
    + intros [|j] idx' Hj; simpl in Hj.
      * injection Hj as <-. exists v. rewrite Nat.add_0_r. now split.
      * destruct (Hall j idx' Hj) as (v' & Hv' & Hl).
        exists v'. rewrite Nat.add_succ_r. now split.
Qed.

Lemma collect_succeeds (values : list (list Value)) (tids : list nat)
    (i0 : nat) (slots : list nat) :
  (forall j idx, slots !! j = Some idx ->
     exists v, pick values tids (i0 + j) idx = inr v) ->
  exists vs, collect values tids i0 slots = inr vs.
Proof.
  revert i0. induction slots as [|idx rest IH]; intros i0 Hall; simpl.
  - eauto.
  - destruct (Hall 0 idx eq_refl) as [v Hv]. rewrite Nat.add_0_r in Hv.
    rewrite Hv. destruct (IH (S i0)) as [vs Hvs].
    { intros j idx' Hj. destruct (Hall (S j) idx' Hj) as [v' Hv'].
      exists v'. now rewrite Nat.add_succ_r in Hv'. }
    rewrite Hvs. eauto.
Qed.

(** ** compute_stats as a whole *)

(** When [compute_stats] returns, it has called the dataset exactly
    once, with the slots of the loop, and it returns one value per
    request, in the order of the requests: the value at position [i] is
    read, at the tuple index of the kind of request [i], in the tuple
    the dataset returned for the slot that holds the key of request
    [i]. *)
Theorem compute_stats_one_value_per_request (str_names : list string)
    (ds : AtomicDataset) (stride : Value) (vs : list Value)
    (tr : list StatCall) :
  run (compute_stats str_names ds stride) = (inr vs, tr) ->
  List.length vs = List.length str_names
  /\ exists st values,
       loop loop_init str_names = inr st
       /\ tr = [mkStatCall (stat_fields st) (stat_modes st) stride]
       /\ statistics ds (stat_fields st) (stat_modes st) stride = Some values
       /\ forall i name, str_names !! i = Some name ->
            exists p k t tup v,
              parse_name name = inr p
              /\ index (p_stat_str p) (stat_strs st) = Some k
              /\ tuple_id_map (p_stat p) = Some t
              /\ values !! k = Some tup
              /\ tup !! t = Some v
              /\ vs !! i = Some v.
Proof.
  unfold run. rewrite compute_stats_unfold.
  destruct (loop loop_init str_names) as [e|st] eqn:Hl; [discriminate|].
  destruct (statistics ds _ _ stride) as [values|] eqn:Hds; [|discriminate].
  intros [= Hc <-].
  destruct (collect_inr _ _ _ _ _ Hc) as [Hlen Hpick].
  destruct (loop_requests _ _ Hl) as (Hids & _ & Hall).
  split; [congruence|].
  exists st, values. repeat split; try assumption.
  intros i name Hi.
  destruct (Hall i name Hi) as (p & k & t & Hp & Hk & Ht & Htid & Hidx).
  destruct (Hpick i k Hk) as (v & Hv & Hvi).
  simpl in Hv. unfold pick in Hv. rewrite Ht in Hv.
  destruct (values !! k) as [tup|] eqn:Htup; [|discriminate].
  destruct (tup !! t) as [v'|] eqn:Hv'; [|discriminate].
  injection Hv as ->.
  exists p, k, t, tup, v. auto 10.
Qed.

Lemma compute_stats_one_value_per_request_witness :
  List.length [VFloat 0.5; VFloat 2; VFloat 3] = 3
  /\ exists st values,
       loop loop_init ["energy_std"; "force_rms"; "energy_mean"] = inr st
       /\ [mkStatCall ["energy"; "force"] ["mean_std"; "rms"] (VInt 1)]
          = [mkStatCall (stat_fields st) (stat_modes st) (VInt 1)]
       /\ statistics two_stats (stat_fields st) (stat_modes st) (VInt 1)
          = Some values
       /\ forall i name,
            ["energy_std"; "force_rms"; "energy_mean"] !! i = Some name ->
            exists p k t tup v,
              parse_name name = inr p
              /\ index (p_stat_str p) (stat_strs st) = Some k
              /\ tuple_id_map (p_stat p) = Some t
              /\ values !! k = Some tup
              /\ tup !! t = Some v
              /\ [VFloat 0.5; VFloat 2; VFloat 3] !! i = Some v.
Proof.
  exact (compute_stats_one_value_per_request
           ["energy_std"; "force_rms"; "energy_mean"] two_stats (VInt 1)
           [VFloat 0.5; VFloat 2; VFloat 3]
           [mkStatCall ["energy"; "force"] ["mean_std"; "rms"] (VInt 1)]
           eq_refl).
Defined.

(** When [compute_stats] raises, it is [UnsupportedStatisticKind] with
    the dataset not called, or the dataset's own exception or an
    [IndexError] on its result, after exactly one dataset call. *)
Theorem compute_stats_failures (str_names : list string)
    (ds : AtomicDataset) (stride : Value) (e : Error) (tr : list StatCall) :
  run (compute_stats str_names ds stride) = (inl e, tr) ->
  (exists stat, e = UnsupportedStatisticKind stat /\ tr = [])
  \/ ((e = DatasetError \/ e = IndexError) /\ List.length tr = 1).
Proof.
  unfold run. rewrite compute_stats_unfold.
  destruct (loop loop_init str_names) as [e'|st] eqn:Hl.
  - intros [= <- <-]. left.
    destruct (loop_inl _ _ _ Hl) as (stat & -> & _). eauto.
  - destruct (statistics ds _ _ stride) as [values|].
    + intros [= Hc <-]. right. apply collect_inl in Hc. auto.
    + intros [= <- <-]. right. auto.
Qed.

Lemma compute_stats_failures_witness :
  (exists stat, IndexError = UnsupportedStatisticKind stat
                /\ [mkStatCall ["energy"] ["mean_std"] (VInt 1)] = [])
  \/ ((IndexError = DatasetError \/ IndexError = IndexError)
      /\ List.length [mkStatCall ["energy"] ["mean_std"] (VInt 1)] = 1).
Proof.
  exact (compute_stats_failures ["energy_std"] short_stats (VInt 1)
           IndexError [mkStatCall ["energy"] ["mean_std"] (VInt 1)] eq_refl).
Defined.

(** Deduplication: in a request list that resolves, two requests share
    a slot exactly when their composite keys are equal. *)
Theorem shared_slot_iff_equal_key (str_names : list string) (st : LoopState)
    (i j : nat) (p q : Parsed) (name1 name2 : string) :
  loop loop_init str_names = inr st ->
  str_names !! i = Some name1 -> parse_name name1 = inr p ->
  str_names !! j = Some name2 -> parse_name name2 = inr q ->
  (ids st !! i = ids st !! j <-> p_stat_str p = p_stat_str q).
Proof. apply same_slot_iff_same_key. Qed.

Lemma shared_slot_iff_equal_key_witness :
  [0; 1; 0] !! 0 = [0; 1; 0] !! 2
  <-> "energymean_std" = "energymean_std".
Proof.
  exact (shared_slot_iff_equal_key
           ["energy_mean"; "force_rms"; "dataset_energy_std"]
           (mkLoop ["mean_std"; "rms"] ["energy"; "force"]
                   ["energymean_std"; "forcerms"] [0; 1; 0] [0; 0; 1])
           0 2
           (mkParsed "energy" "" "mean" "mean_std" "energymean_std")
           (mkParsed "energy" "" "std" "mean_std" "energymean_std")
           "energy_mean" "dataset_energy_std"
           eq_refl eq_refl eq_refl eq_refl eq_refl).
Defined.

(** Two requests with the same composite key and the same tuple index
    resolve to the same value; so do, in particular, two occurrences of
    one request string. *)
Theorem equal_key_equal_value (str_names : list string) (ds : AtomicDataset)
    (stride : Value) (vs : list Value) (tr : list StatCall)
    (i j : nat) (p q : Parsed) (name1 name2 : string) :
  run (compute_stats str_names ds stride) = (inr vs, tr) ->
  str_names !! i = Some name1 -> parse_name name1 = inr p ->
  str_names !! j = Some name2 -> parse_name name2 = inr q ->
  p_stat_str p = p_stat_str q ->
  tuple_id_map (p_stat p) = tuple_id_map (p_stat q) ->
  vs !! i = vs !! j.
Proof.
  unfold run. rewrite compute_stats_unfold.
  destruct (loop loop_init str_names) as [e|st] eqn:Hl; [discriminate|].
  destruct (statistics ds _ _ stride) as [values|]; [|discriminate].
  intros [= Hc _] Hi Hp Hj Hq Hkey Htid.
  destruct (loop_requests _ _ Hl) as (_ & _ & Hall).
  destruct (Hall i _ Hi) as (p' & a & t & Hp' & Ha & Ht & Hmt & Hka).
  destruct (Hall j _ Hj) as (q' & b & u & Hq' & Hb & Hu & Hmu & Hkb).
  rewrite Hp in Hp'. injection Hp' as <-.
  rewrite Hq in Hq'. injection Hq' as <-.
  assert (a = b) as <- by (rewrite Hkey in Hka; congruence).
  assert (t = u) as <- by congruence.
  destruct (collect_inr _ _ _ _ _ Hc) as [_ Hpick].
  destruct (Hpick i a Ha) as (v & Hv & ->).
  destruct (Hpick j a Hb) as (w & Hw & ->).
  simpl in Hv, Hw. unfold pick in Hv, Hw. rewrite Ht in Hv. rewrite Hu in Hw.
  congruence.
Qed.

Lemma equal_key_equal_value_witness :
  [VFloat 0.5; VFloat 3; VFloat 0.5] !! 0 = [VFloat 0.5; VFloat 3; VFloat 0.5] !! 2.
Proof.
  exact (equal_key_equal_value
           ["dataset_energy_std"; "energy_mean"; "energy_std"] two_stats (VInt 1)
           [VFloat 0.5; VFloat 3; VFloat 0.5]
           [mkStatCall ["energy"] ["mean_std"] (VInt 1)]
           0 2
           (mkParsed "energy" "" "std" "mean_std" "energymean_std")
           (mkParsed "energy" "" "std" "mean_std" "energymean_std")
           "dataset_energy_std" "energy_std"
           eq_refl eq_refl eq_refl eq_refl eq_refl eq_refl eq_refl).
Defined.

Lemma startswith_app (p s : string) : startswith (p +:+ s) p = true.
Proof.
  unfold startswith. induction p as [|c p IH].
  - now destruct s.
  - change (String.prefix (String c p) (String c (p +:+ s)) = true).
    change (String.prefix (String c p) (String c (p +:+ s)))
      with (if ascii_dec c c then String.prefix p (p +:+ s) else false).
    now destruct (ascii_dec c c).
Qed.

(** A [dataset_] prefix does not change what a request means, for a
    request that does not itself start with [dataset_]: the prefix is
    removed once. *)
Theorem dataset_prefix_ignored (name : string) :
  startswith name "dataset_" = false ->
  parse_name ("dataset_" +:+ name) = parse_name name.
Proof.
  intros H. unfold parse_name.
  assert (strip_dataset ("dataset_" +:+ name) = name) as ->.
  { unfold strip_dataset. now rewrite startswith_app. }
  unfold strip_dataset at 1. now rewrite H.
Qed.

Lemma dataset_prefix_ignored_witness :
  parse_name ("dataset_" +:+ "per_atom_energy_mean")
  = parse_name "per_atom_energy_mean".
Proof. exact (dataset_prefix_ignored "per_atom_energy_mean" eq_refl). Defined.

(** The one dataset call is well formed: as many fields as modes, every
    mode one of the six known ones, no (field, mode) pair asked twice,
    and no more slots than requests. *)
Lemma loop_slot_count (str_names : list string) (st st' : LoopState) :
  loop st str_names = inr st' ->
  List.length (stat_strs st') <= List.length (stat_strs st) + List.length str_names.
Proof.
  revert st. induction str_names as [|name rest IH]; intros st; simpl.
  - intros [= <-]. lia.
  - destruct (loop_body st name) as [e|st1] eqn:Hb; [discriminate|].
    intros Hl. apply IH in Hl.
    destruct (loop_body_effect _ _ _ Hb) as (p & t & _ & _ & _ & _ & Heff).
    destruct (str_in (p_stat_str p) (stat_strs st)).
    + destruct Heff as (Hs & _). rewrite Hs in Hl. lia.
    + destruct Heff as (Hs & _). rewrite Hs, length_app in Hl. simpl in Hl. lia.
Qed.

Lemma slots_ok_pairs (st : LoopState) :
  slots_ok st ->
  (fun fm => fst fm +:+ snd fm) <$> zip (stat_fields st) (stat_modes st)
  = stat_strs st.
Proof.
  intros (Hm & Hf & _ & Hk). apply list_eq. intros k.
  rewrite list_lookup_fmap, lookup_zip_with.
  destruct (stat_strs st !! k) as [key|] eqn:Hkey.
  - destruct (Hk k key Hkey) as (f & m & -> & -> & -> & _). reflexivity.
  - apply lookup_ge_None in Hkey.
    rewrite (proj2 (lookup_ge_None (stat_fields st) k)) by lia. reflexivity.
Qed.

Theorem dataset_call_well_formed (str_names : list string)
    (ds : AtomicDataset) (stride : Value) (call : StatCall) :
  call ∈ snd (run (compute_stats str_names ds stride)) ->
  List.length (call_fields call) = List.length (call_modes call)
  /\ Forall (fun mode => mode ∈ known_modes) (call_modes call)
  /\ NoDup (zip (call_fields call) (call_modes call))
  /\ List.length (call_fields call) <= List.length str_names
  /\ call_stride call = stride.
Proof.
  unfold run. rewrite compute_stats_trace.
  destruct (loop loop_init str_names) as [e|st] eqn:Hl.
  { intros H. now apply elem_of_nil in H. }
  simpl. intros H. apply list_elem_of_singleton in H as ->. simpl.
  pose proof (loop_slots_ok_from _ _ _ slots_ok_init Hl) as Hok.
  pose proof (slots_ok_pairs _ Hok) as Hpairs.
  destruct Hok as (Hm & Hf & Hnd & Hk).
  split; [congruence|]. split; [|split; [|split; [|reflexivity]]].
  - apply Forall_lookup. intros k m Hmk.
    destruct (stat_strs st !! k) as [key|] eqn:Hkey.
    + destruct (Hk k key Hkey) as (f & m' & _ & Hm' & _ & Hkn). congruence.
    + apply lookup_ge_None in Hkey. apply lookup_lt_Some in Hmk. lia.
  - apply (NoDup_fmap_1 (fun fm => fst fm +:+ snd fm)). now rewrite Hpairs.
  - pose proof (loop_slot_count _ _ _ Hl) as Hc. simpl in Hc. lia.
Qed.

Lemma dataset_call_well_formed_witness :
  List.length ["force"; "energy"] = List.length ["rms"; "mean_std"]
  /\ Forall (fun mode => mode ∈ known_modes) ["rms"; "mean_std"]
  /\ NoDup (zip ["force"; "energy"] ["rms"; "mean_std"])
  /\ List.length ["force"; "energy"] <= 3
  /\ VInt 1 = VInt 1.
Proof.
  apply (dataset_call_well_formed
           ["force_rms"; "energy_mean"; "energy_std"] two_stats (VInt 1)
           (mkStatCall ["force"; "energy"] ["rms"; "mean_std"] (VInt 1))).
  apply list_elem_of_here.
Defined.

(** ** No [IndexError] on a well-shaped dataset result *)

Lemma append_assoc (a b c : string) : (a +:+ b) +:+ c = a +:+ (b +:+ c).
Proof.
  induction a as [|x a IH]; [reflexivity|].
  change ((String x a +:+ b) +:+ c) with (String x ((a +:+ b) +:+ c)).
  change (String x a +:+ (b +:+ c)) with (String x (a +:+ (b +:+ c))).
  now rewrite IH.
Qed.

Lemma append_empty (a b : string) : a +:+ b = "" -> b = "".
Proof. destruct a; [easy|discriminate]. Qed.

Lemma last_char_app (a b : string) :
  b <> "" -> last_char (a +:+ b) = last_char b.
Proof.
  intros Hb. induction a as [|c a IH]; [reflexivity|].
  change (String c a +:+ b) with (String c (a +:+ b)).
  destruct (a +:+ b) as [|d s] eqn:E.
  - apply append_empty in E. contradiction.
  - change (last_char (String c (String d s))) with (last_char (String d s)).
    exact IH.
Qed.

Lemma tuple_id_map_range (stat : string) (t : nat) :
  tuple_id_map stat = Some t -> t = 0 \/ (t = 1 /\ stat = "std").
Proof.
  unfold tuple_id_map.
  destruct (String.eqb stat "mean"); [intros [= <-]; auto|].
  destruct (String.eqb_spec stat "std") as [->|]; [intros [= <-]; auto|].
  destruct (String.eqb stat "rms"); [intros [= <-]; auto|discriminate].
Qed.

(** The tuple index of a request fits the mode of the slot it is given,
    also when the slot was made by another request with the same key. *)
Lemma tuple_id_within_arity (name : string) (p : Parsed) (t : nat)
    (f m : string) :
  parse_name name = inr p ->
  tuple_id_map (p_stat p) = Some t ->
  p_stat_str p = f +:+ m ->
  m ∈ known_modes ->
  t < mode_arity m.
Proof.
  intros Hp Ht Hkey Hm.
  apply tuple_id_map_range in Ht as [->|[-> Hstd]].
  - unfold mode_arity. destruct (str_in m _); lia.
  - destruct (parse_name_inr _ _ Hp) as (_ & _ & Hmode & Hstr).
    rewrite Hstd in Hmode. simpl in Hmode.
    assert (last_char (p_stat_str p) = Some "d"%char) as Hd.
    { rewrite Hstr, Hmode, <- append_assoc.
      rewrite last_char_app by discriminate. reflexivity. }
    rewrite Hkey in Hd.
    apply list_elem_of_In in Hm. simpl in Hm.
    destruct Hm as [<-|[<-|[<-|[<-|[<-|[<-|[]]]]]]];
      try (vm_compute; lia);
      rewrite last_char_app in Hd by discriminate; discriminate.
Qed.

Lemma const_stats_well_shaped (rms mean std : float)
    (fields modes : list string) (stride : Value) :
  exists values,
    statistics (const_stats rms mean std) fields modes stride = Some values
    /\ well_shaped modes values.
Proof.
  eexists. split; [reflexivity|]. unfold well_shaped.
  induction modes as [|mode modes IH]; simpl; constructor; [|exact IH].
  unfold mode_arity, str_in. simpl.
  repeat match goal with
         | |- context [String.eqb ?a ?b] =>
             destruct (String.eqb_spec a b); subst; simpl; try discriminate
         end; lia.
Qed.

(** If every request has a supported kind and the dataset returns, for
    the slots it is asked, one tuple per slot with two entries for a
    mean_std mode and one for an rms mode, [compute_stats] returns one
    value per request. *)
Theorem compute_stats_returns_when_well_shaped (str_names : list string)
    (ds : AtomicDataset) (stride : Value) :
  Forall (fun name => supported_kind (trailing_token name) = true) str_names ->
  (forall fields modes,
     exists values, statistics ds fields modes stride = Some values
                    /\ well_shaped modes values) ->
  exists vs,
    fst (run (compute_stats str_names ds stride)) = inr vs
    /\ List.length vs = List.length str_names.
Proof.
  intros Hsup Hds.
  destruct (loop_supported _ loop_init Hsup) as [st Hl].
  unfold run. rewrite compute_stats_unfold, Hl.
  destruct (Hds (stat_fields st) (stat_modes st)) as (values & -> & Hshape).
  destruct (loop_requests _ _ Hl) as (Hli & Hlt & Hall).
  pose proof (loop_slots_ok_from _ _ _ slots_ok_init Hl) as (_ & _ & _ & Hk).
  destruct (collect_succeeds values (tuple_ids st) 0 (ids st)) as [vs Hvs].
  { intros j idx Hj. simpl.
    destruct (lookup_lt_is_Some_2 str_names j) as [name Hname].
    { rewrite <- Hli. now apply lookup_lt_Some in Hj. }
    destruct (Hall j name Hname) as (p & k & t & Hp & Hkj & Htj & Htid & Hidx).
    assert (idx = k) as -> by congruence.
    apply index_lookup in Hidx.
    destruct (Hk k _ Hidx) as (f & m & _ & Hm & Hkey & Hkn).
    destruct (Forall2_lookup_l _ _ _ _ _ Hshape Hm) as (tup & Htup & Har).
    pose proof (tuple_id_within_arity _ _ _ _ _ Hp Htid Hkey Hkn) as Hlt'.
    destruct (lookup_lt_is_Some_2 tup t) as [v Hv]; [lia|].
    exists v. unfold pick. now rewrite Htup, Htj, Hv. }
  exists vs. simpl. split; [exact Hvs|].
  destruct (collect_inr _ _ _ _ _ Hvs) as [Hlen _]. congruence.
Qed.

Lemma compute_stats_returns_when_well_shaped_witness :
  exists vs,
    fst (run (compute_stats ["per_species_x_std"; "xper_species__mean"; "force_rms"]
                            two_stats (VInt 1))) = inr vs
    /\ List.length vs = 3.
Proof.
  apply (compute_stats_returns_when_well_shaped
           ["per_species_x_std"; "xper_species__mean"; "force_rms"]
           two_stats (VInt 1)).
  - repeat constructor.
  - intros fields modes. apply const_stats_well_shaped.
Defined.

(** ** The request string is recovered from its parts *)

Lemma join_split (sep : ascii) (s : string) :
  join (String sep "") (split sep s) = s.
Proof.
  unfold join. induction s as [|c s IH]; [reflexivity|].
  cbn [split].
  destruct (split sep s) as [|tok toks] eqn:E; [now apply split_nonempty in E|].
  destruct (Ascii.eqb c sep) eqn:Ec.
  - apply Ascii.eqb_eq in Ec as ->.
    change (String.concat (String sep "") ("" :: tok :: toks))
      with (String sep (String.concat (String sep "") (tok :: toks))).
    now rewrite IH.
  - destruct toks as [|tok' toks].
    + change (String.concat (String sep "") [String c tok]) with (String c tok).
      change (String.concat (String sep "") [tok]) with tok in IH.
      now rewrite IH.
    + change (String.concat (String sep "") (String c tok :: tok' :: toks))
        with (String c (String.concat (String sep "") (tok :: tok' :: toks))).
      now rewrite IH.
Qed.

Lemma removelast_last (l : list string) (x : string) :
  last l = Some x -> l = removelast l ++ [x].
Proof.
  induction l as [|y l IH]; [discriminate|].
  destruct l as [|z l]; [now intros [= ->]|].
  intros H. change (removelast (y :: z :: l)) with (y :: removelast (z :: l)).
  simpl. f_equal. now apply IH.
Qed.

Lemma concat_snoc (sep : string) (l : list string) (x : string) :
  String.concat sep (l ++ [x])
  = match l with
    | [] => x
    | _ => String.concat sep l +:+ sep +:+ x
    end.
Proof.
  induction l as [|y l IH]; [reflexivity|].
  destruct l as [|z l]; [reflexivity|].
  change (String.concat sep ((y :: z :: l) ++ [x]))
    with (y +:+ sep +:+ String.concat sep ((z :: l) ++ [x])).
  rewrite IH.
  change (String.concat sep (y :: z :: l))
    with (y +:+ sep +:+ String.concat sep (z :: l)).
  now rewrite !append_assoc.
Qed.

(** A request that parses is, after an optional [dataset_], its
    granularity prefix followed by either the kind alone or the field,
    an underscore and the kind. *)
Theorem parse_name_round_trip (name : string) (p : Parsed) :
  parse_name name = inr p ->
  exists rest,
    (name = p_prefix p +:+ rest \/ name = "dataset_" +:+ p_prefix p +:+ rest)
    /\ (rest = p_stat p \/ rest = p_field p +:+ "_" +:+ p_stat p)
    /\ p_prefix p ∈ [""; "per_species_"; "per_atom_"].
Proof.
  unfold parse_name.
  assert (name = strip_dataset name \/ name = "dataset_" +:+ strip_dataset name)
    as Hds.
  { unfold strip_dataset. destruct (startswith name "dataset_") eqn:E; [|now left].
    right. now apply startswith_drop in E. }
  assert (exists rest prefix,
            strip_granularity (strip_dataset name) = (rest, prefix)
            /\ strip_dataset name = prefix +:+ rest
            /\ prefix ∈ [""; "per_species_"; "per_atom_"]) as (rest & prefix & -> & Hg & Hpre).
  { unfold strip_granularity.
    destruct (startswith (strip_dataset name) "per_species_") eqn:E1.
    { eexists _, _. split; [reflexivity|]. split; [now apply startswith_drop in E1|].
      apply list_elem_of_In. simpl. auto. }
    destruct (startswith (strip_dataset name) "per_atom_") eqn:E2.
    { eexists _, _. split; [reflexivity|]. split; [now apply startswith_drop in E2|].
      apply list_elem_of_In. simpl. auto. }
    eexists _, _. split; [reflexivity|]. split; [reflexivity|].
    apply list_elem_of_In. simpl. auto. }
  destruct (last (split "_" rest)) as [stat|] eqn:Hlast; [|discriminate].
  assert (rest = stat \/ rest = join "_" (removelast (split "_" rest)) +:+ "_" +:+ stat)
    as Hrest.
  { pose proof (join_split "_" rest) as Hj.
    rewrite (removelast_last _ _ Hlast) in Hj at 1. unfold join in Hj.
    rewrite concat_snoc in Hj.
    destruct (removelast (split "_" rest)); [now left|right]. now rewrite <- Hj. }
  intros Hp.
  assert (p_prefix p = prefix /\ p_stat p = stat
          /\ p_field p = join "_" (removelast (split "_" rest))) as (-> & -> & ->).
  { destruct (str_in stat ["mean"; "std"]);
      [|destruct (str_in stat ["rms"]); [|discriminate]];
      injection Hp as <-; auto. }
  exists rest. split; [|split; [exact Hrest|exact Hpre]].
  rewrite <- Hg. exact Hds.
Qed.

Lemma parse_name_round_trip_witness :
  exists rest,
    ("dataset_per_species_total_energy_std" = "per_species_" +:+ rest
     \/ "dataset_per_species_total_energy_std"
        = "dataset_" +:+ "per_species_" +:+ rest)
    /\ (rest = "std" \/ rest = "total_energy" +:+ "_" +:+ "std")
    /\ "per_species_" ∈ [""; "per_species_"; "per_atom_"].
Proof.
  exact (parse_name_round_trip "dataset_per_species_total_energy_std"
           (mkParsed "total_energy" "per_species_" "std" "per_species_mean_std"
                     "total_energyper_species_mean_std")
           eq_refl).
Defined.

(** ** How many times the dataset is called *)

Lemma calls_ret {A} (a : A) : calls_at_most 0 (ret a).
Proof. intros tr. exists []. now rewrite app_nil_r. Qed.

Lemma calls_raise {A} (e : Error) : calls_at_most 0 (@raise A e).
Proof. intros tr. exists []. now rewrite app_nil_r. Qed.

Lemma calls_lift {A} (r : Error + A) : calls_at_most 0 (lift r).
Proof. intros tr. exists []. now rewrite app_nil_r. Qed.

Lemma calls_statistics (ds : AtomicDataset) (fields modes : list string)
    (stride : Value) :
  calls_at_most 1 (call_statistics ds fields modes stride).
Proof. intros tr. eexists. split; [reflexivity|]. simpl. lia. Qed.

Lemma calls_bind {A B} (a b : nat) (m : M A) (k : A -> M B) :
  calls_at_most a m -> (forall x, calls_at_most b (k x)) ->
  calls_at_most (a + b) (bind m k).
Proof.
  intros Hm Hk tr. destruct (Hm tr) as (ext & Hext & Hlen).
  unfold bind. destruct (m tr) as [[e|x] tr1]; simpl in Hext; subst tr1.
  - exists ext. split; [reflexivity|lia].
  - destruct (Hk x (tr ++ ext)) as (ext' & Hext' & Hlen').
    exists (ext ++ ext'). rewrite Hext', length_app, app_assoc.
    split; [reflexivity|lia].
Qed.

Lemma calls_compute_stats (str_names : list string) (ds : AtomicDataset)
    (stride : Value) :
  calls_at_most 1 (compute_stats str_names ds stride).
Proof.
  unfold compute_stats.
  apply (calls_bind 0 1); [apply calls_lift|]. intros st.
  apply (calls_bind 1 0); [apply calls_statistics|]. intros values.
  apply calls_lift.
Qed.

Lemma calls_resolve_global (config : gmap string Value) (ds : AtomicDataset)
    (global_scale global_shift : Value) :
  calls_at_most 1 (resolve_global config ds global_scale global_shift).
Proof.
  unfold resolve_global.
  apply (calls_bind 0 1); [apply calls_lift|]. intros names.
  apply (calls_bind 0 1); [apply calls_lift|]. intros stride.
  apply (calls_bind 1 0); [apply calls_compute_stats|]. intros computed.
  apply (calls_bind 0 0); [apply calls_lift|]. intros scale.
  apply (calls_bind 0 0); [apply calls_lift|]. intros shift.
  apply calls_ret.
Qed.

Lemma calls_per_species_values (config : gmap string Value)
    (ds : AtomicDataset) (initialize : bool)
    (scales shifts global_scale : Value) :
  calls_at_most 1
    (per_species_values config ds initialize scales shifts global_scale).
Proof.
  unfold per_species_values. destruct initialize.
  - apply (calls_bind 0 1); [apply calls_lift|]. intros names.
    apply (calls_bind 0 1); [apply calls_lift|]. intros stride.
    apply (calls_bind 1 0); [apply calls_compute_stats|]. intros computed.
    apply (calls_bind 0 0); [apply calls_lift|]. intros scales'.
    apply (calls_bind 0 0); [apply calls_lift|]. intros shifts'.
    apply (calls_bind 0 0); [apply calls_lift|]. intros gs'.
    destruct (is_None gs'); [apply calls_ret|].
    apply (calls_bind 0 0); [apply calls_lift|]. intros q. apply calls_ret.
  - intros tr. exists []. rewrite app_nil_r. split; [reflexivity|simpl; lia].
Qed.

(** The global variant calls [dataset.statistics] at most once, and
    not at all when [initialize] is false. *)
Theorem RescaleEnergyEtc_calls_dataset_at_most_once
    (FORCE_KEY TOTAL_ENERGY_KEY PER_ATOM_ENERGY_KEY : string)
    (model : GraphModel) (config : gmap string Value) (ds : AtomicDataset)
    (initialize : bool) :
  List.length (snd (run (RescaleEnergyEtc FORCE_KEY TOTAL_ENERGY_KEY
                           PER_ATOM_ENERGY_KEY model config ds initialize)))
  <= (if initialize then 1 else 0).
Proof.
  rewrite RescaleEnergyEtc_trace. destruct initialize.
  - rewrite global_values_trace.
    destruct (calls_resolve_global config ds
                (global_scale_source FORCE_KEY model config)
                (global_shift_source config) []) as (ext & -> & Hlen).
    exact Hlen.
  - simpl. lia.
Qed.

(** The per-species variant calls [dataset.statistics] at most once,
    and not at all when [initialize] is false. *)
Theorem PerSpecieRescale_calls_dataset_at_most_once
    (FORCE_KEY PER_ATOM_ENERGY_KEY : string)
    (model : GraphModel) (config : gmap string Value) (ds : AtomicDataset)
    (initialize : bool) :
  List.length (snd (run (PerSpecieRescale FORCE_KEY PER_ATOM_ENERGY_KEY
                           model config ds initialize)))
  <= (if initialize then 1 else 0).
Proof.
  unfold run, PerSpecieRescale.
  destruct (negb (is_None (ps_global_shift_source config))).
  { simpl. destruct initialize; lia. }
  rewrite bind_trace.
  - destruct initialize.
    + destruct (calls_per_species_values config ds true
                  (scales_source config) (shifts_source config)
                  (ps_global_scale_source FORCE_KEY model config) [])
        as (ext & -> & Hlen). exact Hlen.
    + simpl. lia.
  - intros [[s sh] g] tr'.
    destruct (produces model FORCE_KEY); [|reflexivity].
    now destruct (func_inserted model).
Qed.

(** ** The global variant with statistics *)

Lemma substitute_not_str (v : Value) (str_names : list string)
    (computed_stats : list Value) :
  is_str v = false -> substitute v str_names computed_stats = inr v.
Proof. now destruct v. Qed.

(** What a returned wrapper says about the run. *)
Lemma RescaleEnergyEtc_initialized
    (FORCE_KEY TOTAL_ENERGY_KEY PER_ATOM_ENERGY_KEY : string)
    (model : GraphModel) (config : gmap string Value) (ds : AtomicDataset)
    (out : RescaleOutput) (tr : list StatCall) :
  run (RescaleEnergyEtc FORCE_KEY TOTAL_ENERGY_KEY PER_ATOM_ENERGY_KEY
         model config ds true) = (inr out, tr) ->
  exists str_names computed_stats,
    substitute (global_scale_source FORCE_KEY model config)
               str_names computed_stats = inr (scale_by out)
    /\ substitute (global_shift_source config)
                  str_names computed_stats = inr (shift_by out)
    /\ check_threshold (scale_by out) = inr tt
    /\ global_accepts (global_scale_source FORCE_KEY model config)
                      (global_shift_source config) = true.
Proof.
  unfold run, RescaleEnergyEtc, global_values.
  rewrite !bind_unfold, resolve_global_unfold.
  destruct (global_accepts _ _); [|discriminate].
  destruct (config !! "dataset_statistics_stride") as [stride|]; [|discriminate].
  cbv zeta.
  destruct (compute_stats _ ds stride []) as [[e|computed] tr']; [discriminate|].
  destruct (substitute (global_scale_source _ _ _) _ computed) as [e|scale] eqn:Hs;
    [discriminate|].
  destruct (substitute (global_shift_source _) _ computed) as [e|shift] eqn:Hh;
    [discriminate|].
  unfold lift. destruct (check_threshold scale) as [e|[]] eqn:Hc; [discriminate|].
  unfold ret. intros [= <- _]. simpl. eauto 10.
Qed.

(** What a raised exception says about the run. *)
Lemma RescaleEnergyEtc_inl
    (FORCE_KEY TOTAL_ENERGY_KEY PER_ATOM_ENERGY_KEY : string)
    (model : GraphModel) (config : gmap string Value) (ds : AtomicDataset)
    (initialize : bool) (e : Error) :
  fst (run (RescaleEnergyEtc FORCE_KEY TOTAL_ENERGY_KEY PER_ATOM_ENERGY_KEY
              model config ds initialize)) = inl e ->
  initialize = true
  /\ ((e = InvalidScaleSourceType (global_scale_source FORCE_KEY model config)
       /\ global_accepts (global_scale_source FORCE_KEY model config)
                         (global_shift_source config) = false)
      \/ (resolution_error e = true
          /\ global_accepts (global_scale_source FORCE_KEY model config)
                            (global_shift_source config) = true)
      \/ (exists f, e = DegenerateScaleError f
                    /\ (f <? RESCALE_THRESHOLD)%float = true
                    /\ global_accepts (global_scale_source FORCE_KEY model config)
                                      (global_shift_source config) = true)).
Proof.
  unfold run, RescaleEnergyEtc, global_values. destruct initialize; [|discriminate].
  intros Hrun. split; [reflexivity|]. revert Hrun.
  rewrite !bind_unfold, resolve_global_unfold.
  destruct (global_accepts _ _); [|intros [= <-]; auto].
  destruct (config !! "dataset_statistics_stride") as [stride|];
    [|intros [= <-]; right; left; auto].
  cbv zeta.
  destruct (compute_stats _ ds stride []) as [[e'|computed] tr'] eqn:Hc.
  { intros [= <-]. right. left. split; [|reflexivity].
    assert (fst (compute_stats
                   (global_requests (global_scale_source FORCE_KEY model config)
                                    (global_shift_source config)) ds stride [])
            = inl e') as He by now rewrite Hc.
    apply compute_stats_inl in He as [[stat ->]|[->| ->]]; reflexivity. }
  destruct (substitute (global_scale_source _ _ _) _ computed) as [e'|scale] eqn:Hs.
  { intros [= <-]. right. left. split; [|reflexivity].
    apply substitute_inl in Hs as [[s ->]| ->]; reflexivity. }
  destruct (substitute (global_shift_source _) _ computed) as [e'|shift] eqn:Hh.
  { intros [= <-]. right. left. split; [|reflexivity].
    apply substitute_inl in Hh as [[s ->]| ->]; reflexivity. }
  unfold lift, check_threshold. destruct scale; try discriminate.
  destruct (f <? RESCALE_THRESHOLD)%float eqn:Hlt; [|discriminate].
  intros [= <-]. right. right. eauto.
Qed.

(** With [initialize] true the global variant raises
    [InvalidScaleSourceType] exactly when the scale source is not None
    and one of the two sources is not a string, a float or a tensor;
    it then names the scale source and has not called the dataset. *)
Theorem global_validation_error_iff
    (FORCE_KEY TOTAL_ENERGY_KEY PER_ATOM_ENERGY_KEY : string)
    (model : GraphModel) (config : gmap string Value) (ds : AtomicDataset) :
  ((exists v, fst (run (RescaleEnergyEtc FORCE_KEY TOTAL_ENERGY_KEY
                          PER_ATOM_ENERGY_KEY model config ds true))
              = inl (InvalidScaleSourceType v))
   <-> global_accepts (global_scale_source FORCE_KEY model config)
                      (global_shift_source config) = false)
  /\ (global_accepts (global_scale_source FORCE_KEY model config)
                     (global_shift_source config) = false ->
      run (RescaleEnergyEtc FORCE_KEY TOTAL_ENERGY_KEY PER_ATOM_ENERGY_KEY
             model config ds true)
      = (inl (InvalidScaleSourceType
                (global_scale_source FORCE_KEY model config)), [])).
Proof.
  assert (global_accepts (global_scale_source FORCE_KEY model config)
                         (global_shift_source config) = false ->
          run (RescaleEnergyEtc FORCE_KEY TOTAL_ENERGY_KEY PER_ATOM_ENERGY_KEY
                 model config ds true)
          = (inl (InvalidScaleSourceType
                    (global_scale_source FORCE_KEY model config)), [])) as Hraise.
  { intros Hacc. unfold run, RescaleEnergyEtc, global_values.
    now rewrite !bind_unfold, resolve_global_unfold, Hacc. }
  split; [|exact Hraise]. split.
  - intros [v Hv].
    apply RescaleEnergyEtc_inl in Hv
      as (_ & [[_ Hacc]|[[Hres _]|(f & Hf & _)]]);
      [exact Hacc|discriminate|discriminate].
  - intros Hacc. rewrite (Hraise Hacc). eauto.
Qed.

Lemma global_validation_error_iff_witness :
  run (RescaleEnergyEtc "forces" "total_energy" "atomic_energy"
         force_model int_scale_config two_stats true)
  = (inl (InvalidScaleSourceType (VInt 1)), []).
Proof.
  apply (global_validation_error_iff "forces" "total_energy" "atomic_energy"
           force_model int_scale_config two_stats).
  reflexivity.
Defined.

(** With [initialize] true, a source that is not a request string
    reaches the wrapper unchanged. *)
Theorem literal_sources_pass_through
    (FORCE_KEY TOTAL_ENERGY_KEY PER_ATOM_ENERGY_KEY : string)
    (model : GraphModel) (config : gmap string Value) (ds : AtomicDataset)
    (out : RescaleOutput) (tr : list StatCall) :
  run (RescaleEnergyEtc FORCE_KEY TOTAL_ENERGY_KEY PER_ATOM_ENERGY_KEY
         model config ds true) = (inr out, tr) ->
  (is_str (global_scale_source FORCE_KEY model config) = false ->
   scale_by out = global_scale_source FORCE_KEY model config)
  /\ (is_str (global_shift_source config) = false ->
      shift_by out = global_shift_source config).
Proof.
  intros Hrun.
  destruct (RescaleEnergyEtc_initialized _ _ _ _ _ _ _ _ Hrun)
    as (names & computed & Hs & Hh & _ & _).
  split; intros Hn.
  - rewrite (substitute_not_str _ _ _ Hn) in Hs. congruence.
  - rewrite (substitute_not_str _ _ _ Hn) in Hh. congruence.
Qed.

Lemma literal_sources_pass_through_witness :
  (is_str (global_scale_source "forces" force_model literal_config) = false ->
   VFloat 2 = global_scale_source "forces" force_model literal_config)
  /\ (is_str (global_shift_source literal_config) = false ->
      VFloat 0.5 = global_shift_source literal_config).
Proof.
  exact (literal_sources_pass_through "forces" "total_energy" "atomic_energy"
           force_model literal_config two_stats
           (mkRescaleOutput force_model ["total_energy"; "atomic_energy"; "forces"]
                            (VFloat 2) ["total_energy"] (VFloat 0.5)
                            (VBool false) (VBool false))
           [mkStatCall [] [] (VInt 1)] eq_refl).
Defined.

(** [DegenerateScaleError] is raised only with [initialize] true, only
    after the sources have passed validation, and only with a float
    below the threshold. *)
Theorem degenerate_scale_only_when_initializing
    (FORCE_KEY TOTAL_ENERGY_KEY PER_ATOM_ENERGY_KEY : string)
    (model : GraphModel) (config : gmap string Value) (ds : AtomicDataset)
    (initialize : bool) (g : float) :
  fst (run (RescaleEnergyEtc FORCE_KEY TOTAL_ENERGY_KEY PER_ATOM_ENERGY_KEY
              model config ds initialize)) = inl (DegenerateScaleError g) ->
  initialize = true
  /\ (g <? RESCALE_THRESHOLD)%float = true
  /\ global_accepts (global_scale_source FORCE_KEY model config)
                    (global_shift_source config) = true.
Proof.
  intros Hrun.
  apply RescaleEnergyEtc_inl in Hrun
    as (-> & [[Hinv _]|[[Hres _]|(f & Hf & Hlt & Hacc)]]);
    [discriminate|discriminate|].
  injection Hf as ->. auto.
Qed.

Lemma degenerate_scale_only_when_initializing_witness :
  true = true
  /\ (1e-8 <? RESCALE_THRESHOLD)%float = true
  /\ global_accepts (global_scale_source "forces" force_model default_config)
                    (global_shift_source default_config) = true.
Proof.
  exact (degenerate_scale_only_when_initializing
           "forces" "total_energy" "atomic_energy"
           force_model default_config tiny_forces true 1e-8 eq_refl).
Defined.

Lemma ltb_nan (x y : float) : is_nan x = true -> (x <? y)%float = false.
Proof.
  intros H. rewrite ltb_spec. unfold Prim2SF. now rewrite H.
Qed.

(** A scale that is a NaN float is not caught by the threshold test:
    the wrapper is built with it. *)
Theorem nan_scale_not_rejected
    (FORCE_KEY TOTAL_ENERGY_KEY PER_ATOM_ENERGY_KEY : string)
    (model : GraphModel) (config : gmap string Value) (ds : AtomicDataset)
    (f : float) (shift : Value) (tr : list StatCall) :
  run (resolve_global config ds (global_scale_source FORCE_KEY model config)
                      (global_shift_source config))
  = (inr (VFloat f, shift), tr) ->
  is_nan f = true ->
  exists out,
    run (RescaleEnergyEtc FORCE_KEY TOTAL_ENERGY_KEY PER_ATOM_ENERGY_KEY
           model config ds true) = (inr out, tr)
    /\ scale_by out = VFloat f /\ shift_by out = shift.
Proof.
  unfold run. intros Hres Hnan.
  unfold RescaleEnergyEtc, global_values. rewrite !bind_unfold, Hres.
  unfold lift, check_threshold, ret. rewrite (ltb_nan _ _ Hnan).
  eexists. repeat split.
Qed.

Lemma nan_scale_not_rejected_witness :
  exists out,
    run (RescaleEnergyEtc "forces" "total_energy" "atomic_energy"
           force_model nan_scale_config two_stats true)
    = (inr out, [mkStatCall ["energy"] ["mean_std"] (VInt 1)])
    /\ scale_by out = VFloat nan /\ shift_by out = VFloat 3.
Proof.
  apply (nan_scale_not_rejected "forces" "total_energy" "atomic_energy"
           force_model nan_scale_config two_stats nan (VFloat 3)
           [mkStatCall ["energy"] ["mean_std"] (VInt 1)]);
    reflexivity.
Defined.

(** ** The per-species variant with statistics *)

Lemma collect_str_names_per_species (scales shifts global_scale : Value) :
  collect_str_names (fun v => is_float v || is_list v || is_tensor v)
                    global_scale [scales; shifts; global_scale] []
  = if per_species_accepts scales shifts global_scale
    then inr (request_strings [scales; shifts; global_scale])
    else inl (InvalidScaleSourceType global_scale).
Proof. destruct scales, shifts, global_scale; reflexivity. Qed.

Lemma per_species_values_unfold (config : gmap string Value)
    (ds : AtomicDataset) (scales shifts global_scale : Value)
    (tr : list StatCall) :
  per_species_values config ds true scales shifts global_scale tr
  = if per_species_accepts scales shifts global_scale then
      match config !! "dataset_statistics_stride" with
      | None => (inl (KeyError "dataset_statistics_stride"), tr)
      | Some stride =>
          let str_names := request_strings [scales; shifts; global_scale] in
          match compute_stats str_names ds stride tr with
          | (inl e, tr') => (inl e, tr')
          | (inr computed_stats, tr') =>
              (match substitute scales str_names computed_stats with
               | inl e => inl e
               | inr scales0 =>
                   match substitute shifts str_names computed_stats with
                   | inl e => inl e
                   | inr shifts0 =>
                       match substitute global_scale str_names computed_stats with
                       | inl e => inl e
                       | inr global_scale0 =>
                           if is_None global_scale0
                           then inr (scales0, shifts0, global_scale0)
                           else match itruediv scales0 global_scale0 with
                                | inl e => inl e
                                | inr q =>
                                    inr (after_division str_names
                                           scales shifts global_scale
                                           scales0 shifts0 global_scale0 q)
                                end
                       end
                   end
               end, tr')
          end
      end
    else (inl (InvalidScaleSourceType global_scale), tr).
Proof.
  unfold per_species_values. rewrite collect_str_names_per_species.
  destruct (per_species_accepts scales shifts global_scale); [|reflexivity].
  unfold bind at 1. unfold lift at 1. unfold config_attr.
  destruct (config !! "dataset_statistics_stride") as [stride|]; [|reflexivity].
  unfold bind at 1. unfold lift at 1. cbv zeta. unfold bind at 1.
  destruct (compute_stats _ ds stride tr) as [[e|computed] tr']; [reflexivity|].
  unfold bind, lift, ret.
  destruct (substitute scales _ computed); [reflexivity|].
  destruct (substitute shifts _ computed); [reflexivity|].
  destruct (substitute global_scale _ computed) as [e|g0]; [reflexivity|].
  destruct (is_None g0); [reflexivity|].
  destruct (itruediv _ g0); reflexivity.
Qed.




Lemma per_species_values_errors (config : gmap string Value)
    (ds : AtomicDataset) (initialize : bool)
    (scales shifts global_scale : Value) (tr : list StatCall) (e : Error) :
  fst (per_species_values config ds initialize scales shifts global_scale tr)
  = inl e ->
  initialize = true
  /\ ((e = InvalidScaleSourceType global_scale
       /\ per_species_accepts scales shifts global_scale = false)
      \/ ((resolution_error e = true \/ arithmetic_error e = true)
          /\ per_species_accepts scales shifts global_scale = true)).
Proof.
  destruct initialize; [|discriminate]. intros H. split; [reflexivity|].
  revert H. rewrite per_species_values_unfold.
  destruct (per_species_accepts _ _ _); [|intros [= <-]; auto].
  destruct (config !! "dataset_statistics_stride") as [stride|];
    [|intros [= <-]; right; auto].
  cbv zeta.
  destruct (compute_stats _ ds stride tr) as [[e'|computed] tr'] eqn:Hc.
  { intros [= <-]. right. split; [left|reflexivity].
    assert (fst (compute_stats (request_strings [scales; shifts; global_scale])
                               ds stride tr) = inl e') as He by now rewrite Hc.
    apply compute_stats_inl in He as [[stat ->]|[->| ->]]; reflexivity. }
  simpl fst.
  destruct (substitute scales _ computed) as [e'|s0] eqn:Hs.
  { intros [= <-]. right. split; [left|reflexivity].
    apply substitute_inl in Hs as [[s ->]| ->]; reflexivity. }
  destruct (substitute shifts _ computed) as [e'|sh0] eqn:Hh.
  { intros [= <-]. right. split; [left|reflexivity].
    apply substitute_inl in Hh as [[s ->]| ->]; reflexivity. }
  destruct (substitute global_scale _ computed) as [e'|g0] eqn:Hg.
  { intros [= <-]. right. split; [left|reflexivity].
    apply substitute_inl in Hg as [[s ->]| ->]; reflexivity. }
  destruct (is_None g0); [discriminate|].
  destruct (itruediv s0 g0) as [e'|q] eqn:Hd; [|discriminate].
  intros [= <-]. right. split; [right|reflexivity].
  now apply itruediv_inl in Hd.
Qed.

Lemma PerSpecieRescale_unfold (FORCE_KEY PER_ATOM_ENERGY_KEY : string)
    (model : GraphModel) (config : gmap string Value) (ds : AtomicDataset)
    (initialize : bool) :
  ps_global_shift_source config = VNone ->
  run (PerSpecieRescale FORCE_KEY PER_ATOM_ENERGY_KEY model config ds initialize)
  = match per_species_values config ds initialize (scales_source config)
            (shifts_source config)
            (ps_global_scale_source FORCE_KEY model config) [] with
    | (inl e, tr) => (inl e, tr)
    | (inr (scales', shifts', global_scale'), tr) =>
        let ins :=
          per_species_insertion PER_ATOM_ENERGY_KEY
            (config_after config initialize (scales_source config)
                          scales' global_scale') in
        if produces model FORCE_KEY then
          match func_inserted model with
          | None => (inl (AttributeError "func"), tr)
          | Some l =>
              (inr (mkModel (irreps_out model) (inserted model)
                            (Some (l ++ [ins]))), tr)
          end
        else
          (inr (mkModel (irreps_out model) (inserted model ++ [ins])
                        (func_inserted model)), tr)
    end.
Proof.
  intros Hn. unfold run, PerSpecieRescale. rewrite Hn. cbn [is_None negb].
  rewrite bind_unfold.
  destruct (per_species_values _ _ _ _ _ _ []) as [[e|[[s sh] g]] tr];
    [reflexivity|].
  cbv zeta. destruct (produces model FORCE_KEY); [|reflexivity].
  now destruct (func_inserted model).
Qed.

(** The exceptions the per-species variant raises up to the insertion
    of the module. *)
Lemma PerSpecieRescale_inl (FORCE_KEY PER_ATOM_ENERGY_KEY : string)
    (model : GraphModel) (config : gmap string Value) (ds : AtomicDataset)
    (initialize : bool) (e : Error) :
  fst (run (PerSpecieRescale FORCE_KEY PER_ATOM_ENERGY_KEY
              model config ds initialize)) = inl e ->
  e = ConflictingShiftConfigError
  \/ e = InvalidScaleSourceType (ps_global_scale_source FORCE_KEY model config)
  \/ resolution_error e = true
  \/ arithmetic_error e = true
  \/ e = AttributeError "func".
Proof.
  intros H.
  destruct (ps_global_shift_source config) eqn:Hg.
  2-7: (revert H; unfold run, PerSpecieRescale; rewrite Hg;
        intros [= <-]; auto).
  rewrite (PerSpecieRescale_unfold _ _ _ _ _ _ Hg) in H.
  destruct (per_species_values _ _ _ _ _ _ []) as [[e'|[[s sh] g]] tr] eqn:Hv.
  - simpl in H. injection H as ->.
    assert (fst (per_species_values config ds initialize (scales_source config)
                   (shifts_source config)
                   (ps_global_scale_source FORCE_KEY model config) [])
            = inl e) as He by now rewrite Hv.
    apply per_species_values_errors in He as (_ & [[-> _]|[[Hr|Ha] _]]); auto.
  - cbv zeta in H. destruct (produces model FORCE_KEY); [|discriminate].
    destruct (func_inserted model); [discriminate|].
    injection H as <-. auto 10.
Qed.

(** The per-species variant has no test of the global scale against the
    threshold: whatever the model, the configuration and the dataset,
    it never raises [DegenerateScaleError]. *)
Theorem PerSpecieRescale_never_degenerate
    (FORCE_KEY PER_ATOM_ENERGY_KEY : string)
    (model : GraphModel) (config : gmap string Value) (ds : AtomicDataset)
    (initialize : bool) (g : float) :
  fst (run (PerSpecieRescale FORCE_KEY PER_ATOM_ENERGY_KEY
              model config ds initialize)) <> inl (DegenerateScaleError g).
Proof.
  intros H. apply PerSpecieRescale_inl in H as [H|[H|[H|[H|H]]]]; discriminate.
Qed.

(** With [initialize] true and no global shift, the per-species variant
    raises [InvalidScaleSourceType] exactly when the global scale
    source is not None and one of the scales, the shifts and the global
    scale is not a string, a float, a list or a tensor; it then has not
    called the dataset. *)
Theorem per_species_validation_error_iff
    (FORCE_KEY PER_ATOM_ENERGY_KEY : string)
    (model : GraphModel) (config : gmap string Value) (ds : AtomicDataset) :
  ps_global_shift_source config = VNone ->
  ((exists v, fst (run (PerSpecieRescale FORCE_KEY PER_ATOM_ENERGY_KEY
                          model config ds true))
              = inl (InvalidScaleSourceType v))
   <-> per_species_accepts (scales_source config) (shifts_source config)
         (ps_global_scale_source FORCE_KEY model config) = false)
  /\ (per_species_accepts (scales_source config) (shifts_source config)
        (ps_global_scale_source FORCE_KEY model config) = false ->
      run (PerSpecieRescale FORCE_KEY PER_ATOM_ENERGY_KEY model config ds true)
      = (inl (InvalidScaleSourceType
                (ps_global_scale_source FORCE_KEY model config)), [])).
Proof.
  intros Hg.
  assert (per_species_accepts (scales_source config) (shifts_source config)
            (ps_global_scale_source FORCE_KEY model config) = false ->
          run (PerSpecieRescale FORCE_KEY PER_ATOM_ENERGY_KEY model config ds true)
          = (inl (InvalidScaleSourceType
                    (ps_global_scale_source FORCE_KEY model config)), []))
    as Hraise.
  { intros Hacc. rewrite (PerSpecieRescale_unfold _ _ _ _ _ _ Hg).
    now rewrite per_species_values_unfold, Hacc. }
  split; [|exact Hraise]. split.
  - intros [v Hv]. rewrite (PerSpecieRescale_unfold _ _ _ _ _ _ Hg) in Hv.
    destruct (per_species_values _ _ _ _ _ _ []) as [[e'|[[s sh] g]] tr] eqn:Hpv.
    + simpl in Hv. injection Hv as ->.
      assert (fst (per_species_values config ds true (scales_source config)
                     (shifts_source config)
                     (ps_global_scale_source FORCE_KEY model config) [])
              = inl (InvalidScaleSourceType v)) as He by now rewrite Hpv.
      apply per_species_values_errors in He as (_ & [[_ Hacc]|[[Hr|Ha] _]]);
        [exact Hacc|discriminate|discriminate].
    + cbv zeta in Hv. destruct (produces model FORCE_KEY); [|discriminate].
      destruct (func_inserted model); discriminate.
  - intros Hacc. rewrite (Hraise Hacc). eauto.
Qed.

Lemma per_species_validation_error_iff_witness :
  run (PerSpecieRescale "forces" "atomic_energy" force_model
         scales_only_config two_stats true)
  = (inl (InvalidScaleSourceType (VStr "dataset_force_rms")), []).
Proof.
  exact (proj2 (per_species_validation_error_iff "forces" "atomic_energy"
                  force_model scales_only_config two_stats eq_refl)
               eq_refl).
Defined.

(** Per-species scales given as a Python list pass validation but
    cannot be divided: with a literal float as global scale,
    configuration with [initialize] true never returns a model. *)
Theorem list_scales_cannot_initialize (FORCE_KEY PER_ATOM_ENERGY_KEY : string)
    (model : GraphModel) (config : gmap string Value) (ds : AtomicDataset)
    (l : list float) :
  scales_source config = VList l ->
  is_float (ps_global_scale_source FORCE_KEY model config) = true ->
  exists e,
    fst (run (PerSpecieRescale FORCE_KEY PER_ATOM_ENERGY_KEY
                model config ds true)) = inl e.
Proof.
  intros Hs Hgs.
  destruct (ps_global_shift_source config) eqn:Hg.
  2-7: (unfold run, PerSpecieRescale; rewrite Hg; eauto).
  rewrite (PerSpecieRescale_unfold _ _ _ _ _ _ Hg), per_species_values_unfold, Hs.
  destruct (per_species_accepts _ _ _); [|eauto].
  destruct (config !! "dataset_statistics_stride") as [stride|]; [|eauto].
  cbv zeta.
  destruct (compute_stats _ ds stride []) as [[e|computed] tr']; [eauto|].
  rewrite (substitute_not_str (VList l)) by reflexivity.
  destruct (substitute (shifts_source config) _ computed); [eauto|].
  assert (is_str (ps_global_scale_source FORCE_KEY model config) = false
          /\ is_None (ps_global_scale_source FORCE_KEY model config) = false)
    as [Hstr Hnone]
    by (destruct (ps_global_scale_source FORCE_KEY model config);
        try discriminate; auto).
  rewrite (substitute_not_str _ _ _ Hstr), Hnone, itruediv_list. eauto.
Qed.

Lemma list_scales_cannot_initialize_witness :
  exists e,
    fst (run (PerSpecieRescale "forces" "atomic_energy"
                force_model list_scales_config two_stats true)) = inl e.
Proof.
  exact (list_scales_cannot_initialize "forces" "atomic_energy"
           force_model list_scales_config two_stats [2; 4]%float
           eq_refl eq_refl).
Defined.

(** When the per-species variant returns, the model has its outputs
    unchanged and exactly one insertion more: in [model.func] when the
    model produces forces, in the model itself otherwise.  The module
    is inserted before the others after [total_energy_sum], on the
    per-atom energy; with [initialize] false [config] is its
    [shared_params] as it was given. *)
Theorem PerSpecieRescale_inserts_one_module
    (FORCE_KEY PER_ATOM_ENERGY_KEY : string)
    (model model' : GraphModel) (config : gmap string Value)
    (ds : AtomicDataset) (initialize : bool) (tr : list StatCall) :
  run (PerSpecieRescale FORCE_KEY PER_ATOM_ENERGY_KEY model config ds initialize)
  = (inr model', tr) ->
  irreps_out model' = irreps_out model
  /\ exists ins,
       ins_after ins = "total_energy_sum"
       /\ ins_name ins = "per_species_scale_shift"
       /\ ins_builder ins = "PerSpeciesScaleShift"
       /\ ins_params ins = [("field", PER_ATOM_ENERGY_KEY);
                            ("out_field", PER_ATOM_ENERGY_KEY)]
       /\ ins_prepend ins = true
       /\ (initialize = false -> ins_shared_params ins = config)
       /\ (if produces model FORCE_KEY
           then inserted model' = inserted model
                /\ exists l, func_inserted model = Some l
                             /\ func_inserted model' = Some (l ++ [ins])
           else inserted model' = inserted model ++ [ins]
                /\ func_inserted model' = func_inserted model).
Proof.
  destruct (ps_global_shift_source config) eqn:Hg.
  2-7: (unfold run, PerSpecieRescale; rewrite Hg; discriminate).
  rewrite (PerSpecieRescale_unfold _ _ _ _ _ _ Hg).
  destruct (per_species_values _ _ _ _ _ _ []) as [[e|[[s sh] g]] tr1];
    [discriminate|].
  cbv zeta.
  set (ins := per_species_insertion PER_ATOM_ENERGY_KEY
                (config_after config initialize (scales_source config) s g)).
  assert (initialize = false -> ins_shared_params ins = config) as Hshared
    by (intros ->; reflexivity).
  destruct (produces model FORCE_KEY).
  - destruct (func_inserted model) as [l|]; [|discriminate].
    intros [= <- _]. split; [reflexivity|]. exists ins.
    do 5 (split; [reflexivity|]). split; [exact Hshared|].
    split; [reflexivity|]. exists l. now split.
  - intros [= <- _]. split; [reflexivity|]. exists ins.
    do 5 (split; [reflexivity|]). split; [exact Hshared|]. now split.
Qed.

Lemma PerSpecieRescale_inserts_one_module_witness :
  irreps_out (mkModel (irreps_out energy_model)
                [per_species_insertion "atomic_energy" default_config] None)
  = irreps_out energy_model
  /\ exists ins,
       ins_after ins = "total_energy_sum"
       /\ ins_name ins = "per_species_scale_shift"
       /\ ins_builder ins = "PerSpeciesScaleShift"
       /\ ins_params ins = [("field", "atomic_energy");
                            ("out_field", "atomic_energy")]
       /\ ins_prepend ins = true
       /\ (false = false -> ins_shared_params ins = default_config)
       /\ (if produces energy_model "forces"
           then inserted (mkModel (irreps_out energy_model)
                            [per_species_insertion "atomic_energy" default_config]
                            None)
                = inserted energy_model
                /\ exists l, func_inserted energy_model = Some l
                             /\ func_inserted
                                  (mkModel (irreps_out energy_model)
                                     [per_species_insertion "atomic_energy"
                                        default_config] None)
                                = Some (l ++ [ins])
           else inserted (mkModel (irreps_out energy_model)
                            [per_species_insertion "atomic_energy" default_config]
                            None)
                = inserted energy_model ++ [ins]
                /\ func_inserted
                     (mkModel (irreps_out energy_model)
                        [per_species_insertion "atomic_energy" default_config] None)
                   = func_inserted energy_model).
Proof.
  exact (PerSpecieRescale_inserts_one_module "forces" "atomic_energy"
           energy_model
           (mkModel (irreps_out energy_model)
              [per_species_insertion "atomic_energy" default_config] None)
           default_config two_stats false [] eq_refl).
Defined.
